(** * Notes application: the three workflows of [NotesApp] (src/App.jsx)

    A shallow embedding of [fetchNotes], [createNote] and [deleteNote].
    The workflows are written in a small monad that threads the state of
    the remote platform, records every observable effect in order (remote
    calls with their outcome, React state setters, dialogs, console
    output) and propagates JavaScript exceptions.  The React state of the
    component is obtained afterwards by replaying the recorded setters. *)

From Stdlib Require Import List String Bool.
Import ListNotations.
Open Scope string_scope.
Open Scope list_scope.

Set Implicit Arguments.

(** ** Data model *)

(** Modelled from the spec: the [Note] record type of the structured-data
    store.  Its schema (amplify/data/resource) is not among the sources;
    the spec lists the persisted fields [id], [title], [content] and the
    optional [imagePath], and says [imageUrl] is never persisted. *)
Record NoteRecord : Type := mkRecord {
  id : string;
  title : string;
  content : string;
  imagePath : option string
}.

(** A note as the component holds it: the store's record, possibly
    extended by [{ ...n, imageUrl: url }]. *)
Record Note : Type := mkNote {
  stored : NoteRecord;
  imageUrl : option string
}.

(** [return n]: the record is passed on as it is, without [imageUrl]. *)
Definition plain (n : NoteRecord) : Note :=
  {| stored := n; imageUrl := None |}.

(** [{ ...n, imageUrl: url }] *)
Definition with_url (n : NoteRecord) (url : string) : Note :=
  {| stored := n; imageUrl := Some url |}.

(** [useState({ title: '', content: '' })] *)
Record FormData : Type := mkForm {
  form_title : string;
  form_content : string
}.

Definition empty_form : FormData :=
  {| form_title := EmptyString; form_content := EmptyString |}.

(** The [File] picked in the file input: the code reads [name] and [type]
    and hands the object itself to the upload. *)
Record File : Type := mkFile {
  file_name : string;
  file_type : string;
  file_body : string
}.

(** JavaScript truthiness of a string: only the empty string is falsy. *)
Definition nonempty (s : string) : bool :=
  match s with
  | EmptyString => false
  | String _ _ => true
  end.

(** Truthiness of an optional string field such as [n.imagePath]:
    [undefined], [null] and the empty string are falsy. *)
Definition present (v : option string) : bool :=
  match v with
  | Some p => nonempty p
  | None => false
  end.

(** An object literal with string-valued properties, in source order. *)
Definition Fields : Type := list (string * string).

Definition keys (o : Fields) : list string := map fst o.

(** ** Effects *)

(** [{ data }] as returned by [client.models.Note.list()]. *)
Record ListResult : Type := mkListResult {
  list_data : option (list NoteRecord)
}.

(** [{ data }] as returned by [Note.create] and [Note.update]; [data] may
    be null. *)
Record DataResult : Type := mkDataResult {
  data : option NoteRecord
}.

(** The remote calls of the component, with their arguments. *)
Inductive Call : Type :=
| NoteList
| NoteCreate (input : Fields)
| NoteUpdate (input : Fields)
| NoteDelete (input : Fields)
| UploadData (path : string) (data : File) (contentType : string)
| GetUrl (path : string)
| Remove (path : string).

(** What a remote call resolves with. *)
Inductive Reply : Type :=
| Listed (resp : option ListResult)
| Data (res : DataResult)
| Deleted
| Uploaded (path : string)
| Signed (url : string)
| Removed.

(** The argument of [setNotes]: a new array, or one of the two updater
    functions of the source:
    - [Replace withUrls]: [setNotes(withUrls)];
    - [Append newNote]: [setNotes((prev) => [...prev, newNote])];
    - [RemoveId i]: [setNotes((prev) => prev.filter((n) => n.id !== i))]
      with [i] the value of [note.id]. *)
Inductive NotesUpdate : Type :=
| Replace (withUrls : list Note)
| Append (newNote : option Note)
| RemoveId (i : string).

(** ** React state of the component *)

(** The four [useState] cells.  An entry of [notes] can be null: see
    [createNote], which appends [created.data] as it comes. *)
Record UiState : Type := mkState {
  notes : list (option Note);
  formData : FormData;
  file : option File;
  busy : bool
}.

(** [useState([])], [useState({ title: '', content: '' })],
    [useState(null)], [useState(false)] *)
Definition initial : UiState :=
  {| notes := []; formData := empty_form; file := None; busy := false |}.

(** [prev.filter((n) => n.id !== note.id)].  Reading [n.id] of a null
    entry throws a TypeError: no array results then. *)
Fixpoint without_id (i : string) (prev : list (option Note))
    : option (list (option Note)) :=
  match prev with
  | [] => Some []
  | None :: _ => None
  | Some n :: rest =>
      match without_id i rest with
      | Some rest' =>
          Some (if String.eqb (id (stored n)) i then rest' else Some n :: rest')
      | None => None
      end
  end.

Definition apply_update (u : NotesUpdate) (prev : list (option Note))
    : option (list (option Note)) :=
  match u with
  | Replace withUrls => Some (map Some withUrls)
  | Append newNote => Some (prev ++ [newNote])
  | RemoveId i => without_id i prev
  end.

(** The list section of the view, [notes.map((n) => <article key={n.id}> ...],
    reads [n.id], [n.title], [n.content] and [n.imageUrl] of every entry:
    it can be evaluated only when no entry is null. *)
Definition renders (s : UiState) : bool :=
  forallb (fun e => match e with Some _ => true | None => false end) (notes s).

(** An entry of the list is consistent when its [imageUrl], if any, comes
    with a present [imagePath]. *)
Definition url_has_path (e : option Note) : Prop :=
  forall n, e = Some n -> imageUrl n <> None ->
            present (imagePath (stored n)) = true.

Section Workflows.

(** The state of everything outside the component (store, blob store,
    network, the user in front of the confirmation dialog) and the
    values JavaScript code can throw. *)
Variable World : Type.
Variable Err : Type.

(** A promise, identified with the outcome it settles with. *)
Definition Promise (A : Type) : Type := (Err + A)%type.

Inductive Effect : Type :=
| Remote (c : Call) (outcome : Promise Reply)
| SetBusy (b : bool)
| SetNotes (u : NotesUpdate)
| SetFormData (f : FormData)
| SetFile (f : option File)
| ConsoleError (label : string) (err : Err)
| Alert (message : string)
| Confirm (message : string) (answer : bool).

(** The external collaborators.  Each operation may change the world
    and either rejects or resolves; a call that never settles is outside
    the model (the source has no timeout: such a workflow never ends). *)
Record Platform : Type := mkPlatform {
  Note_list : World -> World * Promise (option ListResult);
  Note_create : Fields -> World -> World * Promise DataResult;
  Note_update : Fields -> World -> World * Promise DataResult;
  Note_delete : Fields -> World -> World * Promise unit;
  uploadData : string -> File -> string -> World -> World * Promise string;
  getUrl : string -> World -> World * Promise string;
  remove : string -> World -> World * Promise unit;
  confirm : string -> World -> World * bool
}.

Variable P : Platform.

(** *** The monad of workflows *)

Definition M (A : Type) : Type := World -> World * list Effect * Promise A.

Definition ret {A} (a : A) : M A := fun w => (w, [], inr a).

Definition bind {A B} (m : M A) (k : A -> M B) : M B := fun w =>
  match m w with
  | (w1, l1, inl e) => (w1, l1, inl e)
  | (w1, l1, inr a) =>
      match k a w1 with
      | (w2, l2, r) => (w2, l1 ++ l2, r)
      end
  end.

Definition emit (e : Effect) : M unit := fun w => (w, [e], inr tt).

(** [await p]: the value of a fulfilled promise, or a throw. *)
Definition await {A} (p : Promise A) : M A := fun w => (w, [], p).

(** Issues a remote call; the log entry pairs it with its outcome. *)
Definition remote {A} (c : Call) (op : World -> World * Promise A)
    (wrap : A -> Reply) : M (Promise A) := fun w =>
  match op w with
  | (w1, p) =>
      (w1,
       [Remote c match p with inl e => inl e | inr a => inr (wrap a) end],
       inr p)
  end.

(** [confirm(message)]: the blocking yes/no dialog. *)
Definition ask (message : string) : M bool := fun w =>
  match confirm P message w with
  | (w1, answer) => (w1, [Confirm message answer], inr answer)
  end.

(** Calling an [async] function never throws: the body runs and its
    outcome becomes the promise. *)
Definition async {A} (m : M A) : M (Promise A) := fun w =>
  match m w with
  | (w1, l, r) => (w1, l, inr r)
  end.

(** [try { body } catch (err) { handler } finally { fin }] *)
Definition try_catch_finally (body : M unit) (handler : Err -> M unit)
    (fin : M unit) : M unit := fun w =>
  match body w with
  | (w1, l1, r1) =>
      match (match r1 with
             | inl err => handler err w1
             | inr _ => (w1, [], inr tt)
             end) with
      | (w2, l2, r2) =>
          match fin w2 with
          | (w3, l3, inl e) => (w3, l1 ++ l2 ++ l3, inl e)
          | (w3, l3, inr _) => (w3, l1 ++ l2 ++ l3, r2)
          end
      end
  end.

Declare Scope wf_scope.
Delimit Scope wf_scope with wf.
Notation "x <- m ;; k" := (bind m (fun x => k))
  (at level 61, m at next level, right associativity) : wf_scope.
Notation "m ;; k" := (bind m (fun _ => k))
  (at level 61, right associativity) : wf_scope.
Local Open Scope wf_scope.

(** [items.map(async (n) => ...)]: every call is started, in order,
    whatever becomes of the earlier ones. *)
Fixpoint map_async {A B} (f : A -> M B) (items : list A)
    : M (list (Promise B)) :=
  match items with
  | [] => ret []
  | n :: rest =>
      p <- async (f n) ;;
      ps <- map_async f rest ;;
      ret (p :: ps)
  end.

(** [Promise.all]: the results in order when all fulfil, a rejection
    otherwise.  Which rejection wins depends on timing; the model takes
    the first in array order (the value only reaches the console). *)
Fixpoint Promise_all {A} (ps : list (Promise A)) : Promise (list A) :=
  match ps with
  | [] => inr []
  | inl e :: _ => inl e
  | inr a :: rest =>
      match Promise_all rest with
      | inl e => inl e
      | inr l => inr (a :: l)
      end
  end.

(** [resp?.data ?? []] *)
Definition items_of (resp : option ListResult) : list NoteRecord :=
  match resp with
  | Some r => match list_data r with Some l => l | None => [] end
  | None => []
  end.

(** *** fetchNotes *)

(** The arrow function mapped over [items]. *)
Definition hydrate (n : NoteRecord) : M Note :=
  match imagePath n with
  | Some p =>
      if nonempty p then
        url <- (r <- remote (GetUrl p) (getUrl P p) Signed ;; await r) ;;
        ret (with_url n url)
      else ret (plain n)
  | None => ret (plain n)
  end.

Definition fetchNotes : M unit :=
  try_catch_finally
    (emit (SetBusy true) ;;
     resp <- (r <- remote NoteList (Note_list P) Listed ;; await r) ;;
     let items := items_of resp in
     promises <- map_async hydrate items ;;
     withUrls <- await (Promise_all promises) ;;
     emit (SetNotes (Replace withUrls)))
    (fun err =>
       emit (ConsoleError "Error fetching notes:" err) ;;
       emit (Alert "Error fetching notes. Check console for details."))
    (emit (SetBusy false)).

(** *** createNote *)

(** [`images/${newNote.id}-${file.name}`] *)
Definition upload_path (i name : string) : string :=
  ("images/" ++ i ++ "-" ++ name)%string.

(** [formData] and [file] are the values of the render the handler was
    created in. *)
Definition createNote (formData : FormData) (file : option File) : M unit :=
  if negb (nonempty (form_title formData))
     || negb (nonempty (form_content formData))
  then emit (Alert "Please provide a title and content")
  else
    try_catch_finally
      (emit (SetBusy true) ;;
       created <-
         (r <- remote
                 (NoteCreate [("title", form_title formData);
                              ("content", form_content formData)])
                 (Note_create P [("title", form_title formData);
                                 ("content", form_content formData)])
                 Data ;;
          await r) ;;
       newNote <-
         match file, data created with
         | Some f, Some n =>
             result <-
               (r <- remote
                       (UploadData (upload_path (id n) (file_name f)) f
                                   (file_type f))
                       (uploadData P (upload_path (id n) (file_name f)) f
                                   (file_type f))
                       Uploaded ;;
                await r) ;;
             updated <-
               (r <- remote
                       (NoteUpdate [("id", id n); ("imagePath", result)])
                       (Note_update P [("id", id n); ("imagePath", result)])
                       Data ;;
                await r) ;;
             ret (data updated)
         | _, _ => ret (data created)
         end ;;
       emit (SetNotes (Append (option_map plain newNote))) ;;
       emit (SetFormData empty_form) ;;
       emit (SetFile None))
      (fun err =>
         emit (ConsoleError "Error creating note:" err) ;;
         emit (Alert "Error creating note. Check console for details."))
      (emit (SetBusy false)).

(** *** deleteNote *)

Definition deleteNote (note : Note) : M unit :=
  answer <- ask "Delete this note?" ;;
  if negb answer then ret tt
  else
    try_catch_finally
      (emit (SetBusy true) ;;
       match imagePath (stored note) with
       | Some p =>
           if nonempty p then
             r <- remote (Remove p) (remove P p) (fun _ => Removed) ;;
             await r
           else ret tt
       | None => ret tt
       end ;;
       (r <- remote (NoteDelete [("id", id (stored note))])
               (Note_delete P [("id", id (stored note))])
               (fun _ => Deleted) ;;
        await r) ;;
       emit (SetNotes (RemoveId (id (stored note)))))
      (fun err =>
         emit (ConsoleError "Error deleting note:" err) ;;
         emit (Alert "Error deleting note. Check console for details."))
      (emit (SetBusy false)).

(** *** From effects to React state *)

(** One setter call applied to the state; the other effects leave it
    alone.  [None]: the updater function threw. *)
Definition react (e : Effect) (s : UiState) : option UiState :=
  match e with
  | SetBusy b =>
      Some {| notes := notes s; formData := formData s; file := file s;
              busy := b |}
  | SetNotes u =>
      match apply_update u (notes s) with
      | Some l =>
          Some {| notes := l; formData := formData s; file := file s;
                  busy := busy s |}
      | None => None
      end
  | SetFormData f =>
      Some {| notes := notes s; formData := f; file := file s;
              busy := busy s |}
  | SetFile f =>
      Some {| notes := notes s; formData := formData s; file := f;
              busy := busy s |}
  | _ => Some s
  end.

Fixpoint settle (log : list Effect) (s : UiState) : option UiState :=
  match log with
  | [] => Some s
  | e :: rest =>
      match react e s with
      | Some s1 => settle rest s1
      | None => None
      end
  end.

(** The three actions that start a workflow: the Refresh button (and
    the effect run after sign-in), Save Note, and Delete on a card. *)
Inductive Intent : Type :=
| Refresh
| Save
| Delete (n : Note).

(** The handlers close over the state of the render they belong to. *)
Definition handle (s : UiState) (i : Intent) : M unit :=
  match i with
  | Refresh => fetchNotes
  | Save => createNote (formData s) (file s)
  | Delete n => deleteNote n
  end.

(** *** Observations on a run *)

Definition trace (m : M unit) (w : World) : list Effect := snd (fst (m w)).


(** The remote calls of a log, in the order they were issued. *)
Fixpoint calls (log : list Effect) : list Call :=
  match log with
  | [] => []
  | Remote c _ :: rest => c :: calls rest
  | _ :: rest => calls rest
  end.

Definition threw (e : Effect) : bool :=
  match e with
  | Remote _ (inl _) => true
  | _ => false
  end.

(** Some remote call of the log rejected. *)
Definition failed (log : list Effect) : bool := existsb threw log.

(** Every remote call of the log is issued while the last [setBusy]
    before it was [setBusy(true)]; [b] is the flag the log starts from. *)
Fixpoint guarded (b : bool) (log : list Effect) : bool :=
  match log with
  | [] => true
  | SetBusy b' :: rest => guarded b' rest
  | Remote _ _ :: rest => b && guarded b rest
  | _ :: rest => guarded b rest
  end.

(** [n] is what [fetchNotes] makes of the store's record [r], the
    signed URL being one the blob gateway returned in [log]. *)
Definition hydrated (log : list Effect) (r : NoteRecord) (n : Note) : Prop :=
  match imagePath r with
  | Some p =>
      if nonempty p
      then exists url, n = with_url r url
                       /\ In (Remote (GetUrl p) (inr (Signed url))) log
      else n = plain r
  | None => n = plain r
  end.

(** A log that consists of signed-URL requests only. *)
Definition resolutions (log : list Effect) : Prop :=
  Forall (fun e => exists p o, e = Remote (GetUrl p) o) log.

(** *** The runs of the workflows, path by path

    Each constructor is one path through the source function: the
    responses of the platform that select it, the world it ends in and
    the log it leaves. *)

Inductive fetch_run (w : World) : World -> list Effect -> Prop :=
| fetch_list_rejected : forall w1 e,
    Note_list P w = (w1, inl e) ->
    fetch_run w w1
      [SetBusy true; Remote NoteList (inl e);
       ConsoleError "Error fetching notes:" e;
       Alert "Error fetching notes. Check console for details.";
       SetBusy false]
| fetch_join_rejected : forall w1 resp w2 log ps e,
    Note_list P w = (w1, inr resp) ->
    map_async hydrate (items_of resp) w1 = (w2, log, inr ps) ->
    Promise_all ps = inl e ->
    fetch_run w w2
      (SetBusy true :: Remote NoteList (inr (Listed resp)) :: log ++
       [ConsoleError "Error fetching notes:" e;
        Alert "Error fetching notes. Check console for details.";
        SetBusy false])
| fetch_done : forall w1 resp w2 log ps withUrls,
    Note_list P w = (w1, inr resp) ->
    map_async hydrate (items_of resp) w1 = (w2, log, inr ps) ->
    Promise_all ps = inr withUrls ->
    fetch_run w w2
      (SetBusy true :: Remote NoteList (inr (Listed resp)) :: log ++
       [SetNotes (Replace withUrls); SetBusy false]).

(** The argument of [Note.create] in [createNote]. *)
Definition create_input (formData : FormData) : Fields :=
  [("title", form_title formData); ("content", form_content formData)].

(** The argument of [Note.update] in [createNote]. *)
Definition update_input (n : NoteRecord) (path : string) : Fields :=
  [("id", id n); ("imagePath", path)].

Inductive create_run (formData : FormData) (file : option File) (w : World)
  : World -> list Effect -> Prop :=
| create_invalid :
    nonempty (form_title formData) = false
    \/ nonempty (form_content formData) = false ->
    create_run formData file w w [Alert "Please provide a title and content"]
| create_rejected : forall w1 e,
    nonempty (form_title formData) = true ->
    nonempty (form_content formData) = true ->
    Note_create P (create_input formData) w = (w1, inl e) ->
    create_run formData file w w1
      [SetBusy true; Remote (NoteCreate (create_input formData)) (inl e);
       ConsoleError "Error creating note:" e;
       Alert "Error creating note. Check console for details.";
       SetBusy false]
| create_plain : forall w1 created,
    nonempty (form_title formData) = true ->
    nonempty (form_content formData) = true ->
    Note_create P (create_input formData) w = (w1, inr created) ->
    file = None \/ data created = None ->
    create_run formData file w w1
      [SetBusy true;
       Remote (NoteCreate (create_input formData)) (inr (Data created));
       SetNotes (Append (option_map plain (data created)));
       SetFormData empty_form; SetFile None; SetBusy false]
| create_upload_rejected : forall w1 created f n w2 e,
    nonempty (form_title formData) = true ->
    nonempty (form_content formData) = true ->
    Note_create P (create_input formData) w = (w1, inr created) ->
    file = Some f -> data created = Some n ->
    uploadData P (upload_path (id n) (file_name f)) f (file_type f) w1
    = (w2, inl e) ->
    create_run formData file w w2
      [SetBusy true;
       Remote (NoteCreate (create_input formData)) (inr (Data created));
       Remote (UploadData (upload_path (id n) (file_name f)) f (file_type f))
              (inl e);
       ConsoleError "Error creating note:" e;
       Alert "Error creating note. Check console for details.";
       SetBusy false]
| create_update_rejected : forall w1 created f n w2 path w3 e,
    nonempty (form_title formData) = true ->
    nonempty (form_content formData) = true ->
    Note_create P (create_input formData) w = (w1, inr created) ->
    file = Some f -> data created = Some n ->
    uploadData P (upload_path (id n) (file_name f)) f (file_type f) w1
    = (w2, inr path) ->
    Note_update P (update_input n path) w2 = (w3, inl e) ->
    create_run formData file w w3
      [SetBusy true;
       Remote (NoteCreate (create_input formData)) (inr (Data created));
       Remote (UploadData (upload_path (id n) (file_name f)) f (file_type f))
              (inr (Uploaded path));
       Remote (NoteUpdate (update_input n path)) (inl e);
       ConsoleError "Error creating note:" e;
       Alert "Error creating note. Check console for details.";
       SetBusy false]
| create_attached : forall w1 created f n w2 path w3 updated,
    nonempty (form_title formData) = true ->
    nonempty (form_content formData) = true ->
    Note_create P (create_input formData) w = (w1, inr created) ->
    file = Some f -> data created = Some n ->
    uploadData P (upload_path (id n) (file_name f)) f (file_type f) w1
    = (w2, inr path) ->
    Note_update P (update_input n path) w2 = (w3, inr updated) ->
    create_run formData file w w3
      [SetBusy true;
       Remote (NoteCreate (create_input formData)) (inr (Data created));
       Remote (UploadData (upload_path (id n) (file_name f)) f (file_type f))
              (inr (Uploaded path));
       Remote (NoteUpdate (update_input n path)) (inr (Data updated));
       SetNotes (Append (option_map plain (data updated)));
       SetFormData empty_form; SetFile None; SetBusy false].

(** The argument of [Note.delete] in [deleteNote]. *)
Definition delete_input (note : Note) : Fields := [("id", id (stored note))].

(** The blob step of [deleteNote] when it does not throw: skipped for a
    falsy [imagePath], one resolved [remove] otherwise. *)
Inductive blob_step (note : Note) (w : World) : World -> list Effect -> Prop :=
| blob_skipped :
    present (imagePath (stored note)) = false ->
    blob_step note w w []
| blob_removed : forall p w1,
    imagePath (stored note) = Some p -> nonempty p = true ->
    remove P p w = (w1, inr tt) ->
    blob_step note w w1 [Remote (Remove p) (inr Removed)].

Inductive delete_run (note : Note) (w : World)
  : World -> list Effect -> Prop :=
| delete_declined : forall w0,
    confirm P "Delete this note?" w = (w0, false) ->
    delete_run note w w0 [Confirm "Delete this note?" false]
| delete_blob_rejected : forall w0 p w1 e,
    confirm P "Delete this note?" w = (w0, true) ->
    imagePath (stored note) = Some p -> nonempty p = true ->
    remove P p w0 = (w1, inl e) ->
    delete_run note w w1
      [Confirm "Delete this note?" true; SetBusy true;
       Remote (Remove p) (inl e);
       ConsoleError "Error deleting note:" e;
       Alert "Error deleting note. Check console for details.";
       SetBusy false]
| delete_record_rejected : forall w0 w1 pre w2 e,
    confirm P "Delete this note?" w = (w0, true) ->
    blob_step note w0 w1 pre ->
    Note_delete P (delete_input note) w1 = (w2, inl e) ->
    delete_run note w w2
      (Confirm "Delete this note?" true :: SetBusy true :: pre ++
       [Remote (NoteDelete (delete_input note)) (inl e);
        ConsoleError "Error deleting note:" e;
        Alert "Error deleting note. Check console for details.";
        SetBusy false])
| delete_done : forall w0 w1 pre w2,
    confirm P "Delete this note?" w = (w0, true) ->
    blob_step note w0 w1 pre ->
    Note_delete P (delete_input note) w1 = (w2, inr tt) ->
    delete_run note w w2
      (Confirm "Delete this note?" true :: SetBusy true :: pre ++
       [Remote (NoteDelete (delete_input note)) (inr Deleted);
        SetNotes (RemoveId (id (stored note))); SetBusy false]).

(** The image path of [n] is present and a signed-URL request for it
    resolved in [log]. *)
Definition resolved_in (log : list Effect) (n : Note) : Prop :=
  exists p url,
    imagePath (stored n) = Some p /\ nonempty p = true
    /\ In (Remote (GetUrl p) (inr (Signed url))) log.

(** The rule that ties [imageUrl] to [imagePath] for a note installed by
    the run that left [log]: a URL is attached exactly when the path is
    present and its resolution succeeded, and the URL attached is one the
    blob gateway resolved for that path. *)
Definition url_rule (log : list Effect) (n : Note) : Prop :=
  (imageUrl n <> None <-> resolved_in log n)
  /\ forall url, imageUrl n = Some url ->
       exists p, imagePath (stored n) = Some p
                 /\ In (Remote (GetUrl p) (inr (Signed url))) log.

(** The property names a structured-data call sends. *)
Definition sent_keys (c : Call) : list string :=
  match c with
  | NoteCreate input | NoteUpdate input | NoteDelete input => keys input
  | _ => []
  end.

(** What is sent to the structured-data store never has an [imageUrl]
    property, and an update sends [id] and [imagePath] only. *)
Definition store_keys_ok (c : Call) : Prop :=
  ~ In "imageUrl" (sent_keys c)
  /\ forall input, c = NoteUpdate input -> keys input = ["id"; "imagePath"].

(** *** Direct input and presentation *)

(** The inputs that do not start a workflow: typing in the title input
    and in the content textarea, choosing in the file picker (the
    [FileList] of the event, possibly null or empty) and the Clear
    button. *)
Inductive Edit : Type :=
| TypeTitle (value : string)
| TypeContent (value : string)
| PickFile (files : option (list File))
| ClearForm.

(** The setter calls of the four [onChange]/[onClick] handlers of the
    form, which close over the [formData] of the current render:
    - [setFormData({ ...formData, title: e.target.value })];
    - [setFormData({ ...formData, content: e.target.value })];
    - [setFile(e.target.files?.[0] ?? null)];
    - [setFormData({ title: '', content: '' }); setFile(null)]. *)
Definition edit (s : UiState) (e : Edit) : list Effect :=
  match e with
  | TypeTitle value =>
      [SetFormData {| form_title := value;
                      form_content := form_content (formData s) |}]
  | TypeContent value =>
      [SetFormData {| form_title := form_title (formData s);
                      form_content := value |}]
  | PickFile files =>
      [SetFile match files with
               | Some (f :: _) => Some f
               | _ => None
               end]
  | ClearForm => [SetFormData empty_form; SetFile None]
  end.

(** One [<article>] of the list: its key, the two texts, the [src] of
    the image when [n.imageUrl] is truthy, and whether its Delete button
    is disabled. *)
Record Card : Type := mkCard {
  card_key : string;
  card_title : string;
  card_content : string;
  card_image : option string;
  card_delete_disabled : bool
}.

(** The parts of the tree [NotesApp] returns that depend on its state
    (the header with the user name and all styling are left out). *)
Record View : Type := mkView {
  title_value : string;
  content_value : string;
  save_disabled : bool;
  clear_disabled : bool;
  refresh_disabled : bool;
  no_notes_notice : bool;
  cards : list Card
}.

(** The body of [notes.map((n) => ...)]; reading [n.id] of a null entry
    throws. *)
Definition card (busy : bool) (e : option Note) : option Card :=
  match e with
  | Some n =>
      Some {| card_key := id (stored n);
              card_title := title (stored n);
              card_content := content (stored n);
              card_image := if present (imageUrl n) then imageUrl n else None;
              card_delete_disabled := busy |}
  | None => None
  end.

Fixpoint render_cards (busy : bool) (l : list (option Note))
    : option (list Card) :=
  match l with
  | [] => Some []
  | e :: rest =>
      match card busy e with
      | Some c =>
          match render_cards busy rest with
          | Some cs => Some (c :: cs)
          | None => None
          end
      | None => None
      end
  end.

(** The render of [NotesApp]; [None] when evaluating it throws. *)
Definition view (s : UiState) : option View :=
  match render_cards (busy s) (notes s) with
  | Some cs =>
      Some {| title_value := form_title (formData s);
              content_value := form_content (formData s);
              save_disabled := busy s;
              clear_disabled := busy s;
              refresh_disabled := busy s;
              no_notes_notice := match notes s with [] => true | _ => false end;
              cards := cs |}
  | None => None
  end.

(** The states the component can be in between two user actions, the
    workflows being run one at a time (which is what the [busy] gating
    is there for).  An action needs a rendered view; the buttons that
    start a workflow and the Clear button need [busy] false
    ([disabled={busy}]); a Delete button belongs to a card of the list.
    The platform may be in any state when an action starts. *)
Inductive reachable : UiState -> Prop :=
| reach_initial : reachable initial
| reach_edit : forall s e s',
    reachable s -> view s <> None ->
    (e = ClearForm -> busy s = false) ->
    settle (edit s e) s = Some s' ->
    reachable s'
| reach_workflow : forall s i w s',
    reachable s -> view s <> None -> busy s = false ->
    (forall n, i = Delete n -> In (Some n) (notes s)) ->
    settle (trace (handle s i) w) s = Some s' ->
    reachable s'.

(** The signed-URL requests [fetchNotes] makes for a list of records:
    one per record with a truthy [imagePath], in order. *)
Fixpoint url_requests (items : list NoteRecord) : list Call :=
  match items with
  | [] => []
  | r :: rest =>
      match imagePath r with
      | Some p =>
          if nonempty p then GetUrl p :: url_requests rest
          else url_requests rest
      | None => url_requests rest
      end
  end.

(** No remote call is issued after one that rejected. *)
Fixpoint stops_at_rejection (log : list Effect) : bool :=
  match log with
  | [] => true
  | e :: rest =>
      if threw e
      then match calls rest with [] => true | _ :: _ => false end
      else stops_at_rejection rest
  end.

End Workflows.

Arguments Remote {Err} c outcome.
Arguments SetBusy {Err} b.
Arguments SetNotes {Err} u.
Arguments SetFormData {Err} f.
Arguments SetFile {Err} f.
Arguments Alert {Err} message.
Arguments Confirm {Err} message answer.
Arguments edit {Err} s e.

(** ** A reference platform *)

(** Modelled from the spec: an in-memory platform that follows the
    collaborator contracts of the spec (section 6): [create] assigns the
    identifier and returns the record, [update] attaches the path and
    returns the updated record, [list] returns the records in store order,
    [upload] returns the path it stored under, [getSignedUrl] returns a
    URL for the path.  The platform itself is an external service; this
    one serves to run the workflows on concrete inputs.  A script decides
    call by call whether the call resolves, rejects, or resolves with
    nothing ([data] null). *)
Module Demo.

Inductive Behaviour : Type := Resolve | Reject | Empty.

Record World : Type := mkWorld {
  records : list NoteRecord;
  blobs : list string;
  ids : list string;
  script : list Behaviour;
  consent : bool
}.

Definition Err : Type := string.

(** The behaviour of the next call, and the world with the script
    advanced. *)
Definition next (w : World) : Behaviour * World :=
  (hd Resolve (script w),
   {| records := records w; blobs := blobs w; ids := ids w;
      script := tl (script w); consent := consent w |}).

Definition with_records (l : list NoteRecord) (w : World) : World :=
  {| records := l; blobs := blobs w; ids := ids w; script := script w;
     consent := consent w |}.

Definition with_blobs (l : list string) (w : World) : World :=
  {| records := records w; blobs := l; ids := ids w; script := script w;
     consent := consent w |}.

Definition field (k : string) (o : Fields) : option string :=
  match find (fun kv => String.eqb (fst kv) k) o with
  | Some kv => Some (snd kv)
  | None => None
  end.

Definition text (v : option string) : string :=
  match v with Some t => t | None => EmptyString end.

Definition Note_list (w : World) : World * (Err + option ListResult) :=
  match next w with
  | (Resolve, w1) => (w1, inr (Some {| list_data := Some (records w1) |}))
  | (Empty, w1) => (w1, inr None)
  | (Reject, w1) => (w1, inl "Network Error")
  end.

Definition Note_create (input : Fields) (w : World)
    : World * (Err + DataResult) :=
  match next w with
  | (Resolve, w1) =>
      let r := {| id := hd "0" (ids w1);
                  title := text (field "title" input);
                  content := text (field "content" input);
                  imagePath := None |} in
      ({| records := records w1 ++ [r]; blobs := blobs w1;
          ids := tl (ids w1); script := script w1;
          consent := consent w1 |},
       inr {| data := Some r |})
  | (Empty, w1) => (w1, inr {| data := None |})
  | (Reject, w1) => (w1, inl "Network Error")
  end.

Definition attach (i : string) (p : option string) (r : NoteRecord)
    : NoteRecord :=
  if String.eqb (id r) i
  then {| id := id r; title := title r; content := content r;
          imagePath := p |}
  else r.

Definition Note_update (input : Fields) (w : World)
    : World * (Err + DataResult) :=
  match next w with
  | (Resolve, w1) =>
      let i := text (field "id" input) in
      let rs := map (attach i (field "imagePath" input)) (records w1) in
      (with_records rs w1,
       inr {| data := find (fun r => String.eqb (id r) i) rs |})
  | (Empty, w1) => (w1, inr {| data := None |})
  | (Reject, w1) => (w1, inl "Network Error")
  end.

Definition Note_delete (input : Fields) (w : World) : World * (Err + unit) :=
  match next w with
  | (Reject, w1) => (w1, inl "Network Error")
  | (_, w1) =>
      (with_records
         (filter (fun r => negb (String.eqb (id r) (text (field "id" input))))
                 (records w1)) w1,
       inr tt)
  end.

Definition uploadData (path : string) (f : File) (contentType : string)
    (w : World) : World * (Err + string) :=
  match next w with
  | (Reject, w1) => (w1, inl "Network Error")
  | (_, w1) => (with_blobs (blobs w1 ++ [path]) w1, inr path)
  end.

Definition getUrl (path : string) (w : World) : World * (Err + string) :=
  match next w with
  | (Reject, w1) => (w1, inl "Network Error")
  | (_, w1) => (w1, inr ("https://blobs.example/" ++ path)%string)
  end.

Definition remove (path : string) (w : World) : World * (Err + unit) :=
  match next w with
  | (Reject, w1) => (w1, inl "Network Error")
  | (_, w1) =>
      (with_blobs (filter (fun p => negb (String.eqb p path)) (blobs w1)) w1,
       inr tt)
  end.

Definition confirm (message : string) (w : World) : World * bool :=
  (w, consent w).

Definition platform : Platform World Err :=
  mkPlatform Note_list Note_create Note_update Note_delete
             uploadData getUrl remove confirm.

(** An empty store whose next identifier is 123; every call resolves
    unless the script says otherwise, and the user confirms. *)
Definition fresh (sc : list Behaviour) : World :=
  {| records := []; blobs := []; ids := ["123"; "124"; "125"];
     script := sc; consent := true |}.

Definition photo : File :=
  {| file_name := "photo.png"; file_type := "image/png";
     file_body := "PNG" |}.

Definition draft : FormData := {| form_title := "A"; form_content := "B" |}.

(** A store with two records, the first with an image. *)
Definition pictured : NoteRecord :=
  {| id := "1"; title := "Trip"; content := "Lisbon";
     imagePath := Some "images/1-tram.png" |}.

Definition bare : NoteRecord :=
  {| id := "2"; title := "Todo"; content := "Milk"; imagePath := None |}.

Definition stocked (sc : list Behaviour) : World :=
  {| records := [pictured; bare]; blobs := ["images/1-tram.png"];
     ids := ["3"; "4"]; script := sc; consent := true |}.

(** The same store with a user who declines the confirmation. *)
Definition hesitant : World :=
  {| records := [pictured; bare]; blobs := ["images/1-tram.png"];
     ids := ["3"; "4"]; script := []; consent := false |}.

(** The component right after the fetch that follows sign-in. *)
Definition fetched : UiState :=
  {| notes := [Some (with_url pictured
                       "https://blobs.example/images/1-tram.png");
               Some (plain bare)];
     formData := empty_form; file := None; busy := false |}.

(** The record a create with the photo leaves in a fresh store. *)
Definition attached : NoteRecord :=
  {| id := "123"; title := "A"; content := "B";
     imagePath := Some "images/123-photo.png" |}.

(** The component after that create: the note has its path and no URL. *)
Definition created : UiState :=
  {| notes := [Some {| stored := attached; imageUrl := None |}];
     formData := empty_form; file := None; busy := false |}.

(** A store that holds that record and a second one with an image. *)
Definition crowded (sc : list Behaviour) : World :=
  {| records := [attached; pictured];
     blobs := ["images/123-photo.png"; "images/1-tram.png"];
     ids := ["124"; "125"]; script := sc; consent := true |}.

(** The component showing that store, with a draft and a picked file. *)
Definition shown : UiState :=
  {| notes := [Some (with_url pictured "https://blobs.example/old");
               Some (plain bare)];
     formData := draft; file := Some photo; busy := false |}.

End Demo.


(** ** Properties of the workflows *)

Section Properties.

Variable World : Type.
Variable Err : Type.
Variable P : Platform World Err.

Abbreviation Log := (list (Effect Err)).

(** *** Proof automation *)

(** Two runs of the same function from the same world agree: used to
    identify the response a hypothesis names with the one a path took. *)
Ltac same_response :=
  repeat match goal with
         | H1 : ?f = (_, _), H2 : ?f = (_, _) |- _ =>
             rewrite H1 in H2; injection H2 as; subst
         | H1 : ?x = Some _, H2 : ?x = Some _ |- _ =>
             rewrite H1 in H2; injection H2 as; subst
         | H1 : ?x = Some _, H2 : ?x = None |- _ =>
             rewrite H1 in H2; discriminate
         | H : inl _ = inr _ |- _ => discriminate
         | H : inr _ = inl _ |- _ => discriminate
         | H : true = false |- _ => discriminate
         | H : false = true |- _ => discriminate
         end.

(** Case analysis on membership in an explicit list of calls. *)
Ltac pick_call I :=
  simpl in I;
  repeat match type of I with
         | _ \/ _ => destruct I as [<- | I]
         | False => destruct I
         end.

(** Property names of an explicit call, checked by evaluation. *)
Ltac check_keys :=
  unfold store_keys_ok; simpl; split;
  [ intuition discriminate
  | intros ? [= <-]; reflexivity || (intros; discriminate) ].

(** *** Logs *)

Lemma settle_app (l1 l2 : Log) (s : UiState) :
  settle (l1 ++ l2) s =
  match settle l1 s with
  | Some s1 => settle l2 s1
  | None => None
  end.
Proof.
  revert s; induction l1 as [|e l1 IH]; intros s; simpl; [reflexivity|].
  destruct (react e s); [apply IH | reflexivity].
Qed.

Lemma calls_app (l1 l2 : Log) : calls (l1 ++ l2) = calls l1 ++ calls l2.
Proof.
  induction l1 as [|e l1 IH]; simpl; [reflexivity|].
  destruct e; simpl; rewrite IH; reflexivity.
Qed.

Lemma failed_app (l1 l2 : Log) : failed (l1 ++ l2) = failed l1 || failed l2.
Proof. apply existsb_app. Qed.

Lemma resolutions_settle (log : Log) (s : UiState) :
  resolutions log -> settle log s = Some s.
Proof.
  induction 1 as [|e l [p [o ->]] _ IH]; simpl; [reflexivity | exact IH].
Qed.

Lemma resolutions_guarded (l1 l2 : Log) :
  resolutions l1 -> guarded true (l1 ++ l2) = guarded true l2.
Proof.
  induction 1 as [|e l [p [o ->]] _ IH]; simpl; [reflexivity | exact IH].
Qed.

Lemma resolutions_calls (log : Log) (c : Call) :
  resolutions log -> In c (calls log) -> exists p, c = GetUrl p.
Proof.
  induction 1 as [|e l [p [o ->]] _ IH]; simpl; [tauto|].
  intros [<- | H]; [exists p; reflexivity | exact (IH H)].
Qed.

Lemma hydrated_weaken (l0 l1 l2 : Log) (r : NoteRecord) (n : Note) :
  hydrated l1 r n -> hydrated (l0 ++ l1 ++ l2) r n.
Proof.
  unfold hydrated. destruct (imagePath r) as [p|]; [|tauto].
  destruct (nonempty p); [|tauto].
  intros [url [E H]]. exists url. split; [exact E|].
  apply in_or_app. right. apply in_or_app. left. exact H.
Qed.

(** *** The fan-out of [fetchNotes] *)

(** The arrow function issues at most one call, a signed-URL request,
    and returns the record hydrated with what that call resolved with. *)
Lemma hydrate_run (r : NoteRecord) (w : World) :
  exists w1 log o,
    hydrate P r w = (w1, log, o)
    /\ resolutions log
    /\ match o with
       | inl _ => failed log = true
       | inr n => failed log = false /\ hydrated log r n
       end.
Proof.
  unfold hydrate, hydrated.
  destruct (imagePath r) as [p|].
  - destruct (nonempty p) eqn:Hp.
    + unfold bind, remote, await, ret.
      destruct (getUrl P p w) as [w1 [e|url]] eqn:G; simpl.
      * exists w1, [Remote (GetUrl p) (inl e)], (inl e).
        repeat split. constructor; [eauto | constructor].
      * exists w1, [Remote (GetUrl p) (inr (Signed url))],
          (inr (with_url r url)).
        repeat split.
        -- constructor; [eauto | constructor].
        -- exists url. split; [reflexivity | left; reflexivity].
    + exists w, [], (inr (plain r)). repeat split. constructor.
  - exists w, [], (inr (plain r)). repeat split. constructor.
Qed.

(** [items.map(async ...)] followed by [Promise.all]: every request is
    issued; the join fulfils exactly when none of them rejected, with
    one hydrated note per record, in the order of the records. *)
Lemma map_async_hydrate (items : list NoteRecord) (w : World) :
  exists w1 log ps,
    map_async (hydrate P) items w = (w1, log, inr ps)
    /\ resolutions log
    /\ match Promise_all ps with
       | inl _ => failed log = true
       | inr withUrls =>
           failed log = false /\ Forall2 (hydrated log) items withUrls
       end.
Proof.
  revert w; induction items as [|r items IH]; intros w; simpl.
  - exists w, [], []. repeat split; constructor.
  - destruct (hydrate_run r w) as (w1 & l1 & o & E1 & R1 & H1).
    destruct (IH w1) as (w2 & l2 & ps & E2 & R2 & H2).
    exists w2, (l1 ++ l2 ++ []), (o :: ps).
    unfold bind at 1, async. rewrite E1.
    unfold bind at 1. rewrite E2. unfold ret.
    split; [reflexivity|]. rewrite app_nil_r.
    split; [apply Forall_app; split; assumption|].
    simpl. rewrite failed_app.
    destruct o as [e|n].
    + rewrite H1. reflexivity.
    + destruct H1 as [F1 Hn]. rewrite F1. simpl.
      destruct (Promise_all ps) as [e|withUrls]; [exact H2|].
      destruct H2 as [F2 Hall]. split; [exact F2|].
      constructor.
      * apply (hydrated_weaken [] l1 l2) in Hn. exact Hn.
      * eapply Forall2_impl; [|exact Hall].
        intros a b Hab.
        apply (hydrated_weaken l1 l2 []) in Hab.
        rewrite app_nil_r in Hab. exact Hab.
Qed.

(** *** Every run follows one of the paths *)

Lemma fetchNotes_run (w : World) :
  exists w' log, fetchNotes P w = (w', log, inr tt) /\ fetch_run P w w' log.
Proof.
  unfold fetchNotes, try_catch_finally.
  unfold bind at 1. unfold emit at 1.
  unfold bind at 1. unfold bind at 1. unfold remote, await.
  destruct (Note_list P w) as [w1 [e|resp]] eqn:L.
  - exists w1. eexists. split; [reflexivity|].
    simpl. apply fetch_list_rejected. exact L.
  - unfold bind at 1.
    destruct (map_async_hydrate (items_of resp) w1)
      as (w2 & log & ps & E & _ & _).
    rewrite E. unfold bind at 1.
    destruct (Promise_all ps) as [e|withUrls] eqn:J.
    + exists w2. eexists. split; [reflexivity|].
      simpl. rewrite app_nil_r. eapply fetch_join_rejected; eassumption.
    + exists w2. eexists. split; [reflexivity|].
      simpl. rewrite <- app_assoc. simpl.
      eapply fetch_done; eassumption.
Qed.

Lemma createNote_run (formData : FormData) (file : option File) (w : World) :
  exists w' log,
    createNote P formData file w = (w', log, inr tt)
    /\ create_run P formData file w w' log.
Proof.
  unfold createNote.
  destruct (nonempty (form_title formData)) eqn:Ht;
    [destruct (nonempty (form_content formData)) eqn:Hc|]; simpl.
  2, 3: exists w; eexists; split; [reflexivity|];
        apply create_invalid; auto.
  unfold try_catch_finally, bind, emit, remote, await, ret.
  fold (create_input formData).
  destruct (Note_create P (create_input formData) w)
    as [w1 [e|created]] eqn:C.
  - exists w1. eexists. split; [reflexivity|].
    simpl. apply create_rejected; assumption.
  - destruct file as [f|]; [destruct (data created) as [n|] eqn:D|].
    + fold (update_input n).
      destruct (uploadData P (upload_path (id n) (file_name f)) f
                           (file_type f) w1) as [w2 [e|path]] eqn:U.
      * exists w2. eexists. split; [reflexivity|].
        simpl. eapply create_upload_rejected; eauto.
      * fold (update_input n path).
        destruct (Note_update P (update_input n path) w2)
          as [w3 [e|updated]] eqn:Up.
        -- exists w3. eexists. split; [reflexivity|].
           simpl. eapply create_update_rejected; eauto.
        -- exists w3. eexists. split; [reflexivity|].
           simpl. eapply create_attached; eauto.
    + exists w1. eexists. split; [reflexivity|].
      simpl.
      replace (@None Note) with (option_map plain (data created))
        by (rewrite D; reflexivity).
      apply create_plain; auto.
    + exists w1. eexists. split; [reflexivity|].
      simpl. apply create_plain; auto.
Qed.

Lemma deleteNote_run (note : Note) (w : World) :
  exists w' log,
    deleteNote P note w = (w', log, inr tt) /\ delete_run P note w w' log.
Proof.
  unfold deleteNote. unfold bind at 1. unfold ask.
  destruct (confirm P "Delete this note?" w) as [w0 [|]] eqn:Q; simpl.
  2: { exists w0. eexists. split; [reflexivity|].
       apply delete_declined. exact Q. }
  unfold try_catch_finally, bind, emit, remote, await, ret.
  fold (delete_input note).
  destruct (imagePath (stored note)) as [p|] eqn:Ip;
    [destruct (nonempty p) eqn:Np|].
  - destruct (remove P p w0) as [w1 [e|[]]] eqn:R.
    + exists w1. eexists. split; [reflexivity|].
      simpl. eapply delete_blob_rejected; eauto.
    + assert (B : blob_step P note w0 w1 [Remote (Remove p) (inr Removed)])
        by (eapply blob_removed; eauto).
      destruct (Note_delete P (delete_input note) w1) as [w2 [e|[]]] eqn:D.
      * exists w2. eexists. split; [reflexivity|].
        simpl.
      exact (@delete_record_rejected World Err P note w w0 _ _ w2 e Q B D).
      * exists w2. eexists. split; [reflexivity|].
        simpl.
      exact (@delete_done World Err P note w w0 _ _ w2 Q B D).
  - assert (B : blob_step P note w0 w0 [])
      by (apply blob_skipped; rewrite Ip; exact Np).
    destruct (Note_delete P (delete_input note) w0) as [w2 [e|[]]] eqn:D.
    + exists w2. eexists. split; [reflexivity|].
      simpl.
      exact (@delete_record_rejected World Err P note w w0 _ _ w2 e Q B D).
    + exists w2. eexists. split; [reflexivity|].
      simpl.
      exact (@delete_done World Err P note w w0 _ _ w2 Q B D).
  - assert (B : blob_step P note w0 w0 [])
      by (apply blob_skipped; rewrite Ip; reflexivity).
    destruct (Note_delete P (delete_input note) w0) as [w2 [e|[]]] eqn:D.
    + exists w2. eexists. split; [reflexivity|].
      simpl.
      exact (@delete_record_rejected World Err P note w w0 _ _ w2 e Q B D).
    + exists w2. eexists. split; [reflexivity|].
      simpl.
      exact (@delete_done World Err P note w w0 _ _ w2 Q B D).
Qed.

Lemma map_async_hydrate_inv (items : list NoteRecord) (w w2 : World)
    (log : Log) (ps : list (Promise Err Note)) :
  map_async (hydrate P) items w = (w2, log, inr ps) ->
  resolutions log
  /\ match Promise_all ps with
     | inl _ => failed log = true
     | inr withUrls =>
         failed log = false /\ Forall2 (hydrated log) items withUrls
     end.
Proof.
  intros E.
  destruct (map_async_hydrate items w) as (w2' & log' & ps' & E' & R & H).
  rewrite E in E'. injection E' as <- <- <-. split; assumption.
Qed.

Lemma trace_eq (m : M World Err unit) (w w' : World) (log : Log)
    (r : Promise Err unit) :
  m w = (w', log, r) -> trace m w = log.
Proof. intros E. unfold trace. rewrite E. reflexivity. Qed.

(** What a run of [fetchNotes] leaves behind, by outcome. *)
Lemma fetch_outcome (w : World) (s : UiState) :
  exists s',
    settle (trace (fetchNotes P) w) s = Some s'
    /\ busy s' = false /\ formData s' = formData s /\ file s' = file s
    /\ (failed (trace (fetchNotes P) w) = true ->
        notes s' = notes s
        /\ In (Alert "Error fetching notes. Check console for details.")
              (trace (fetchNotes P) w)
        /\ exists err,
             In (ConsoleError "Error fetching notes:" err)
                (trace (fetchNotes P) w))
    /\ (failed (trace (fetchNotes P) w) = false ->
        exists w1 resp withUrls,
          Note_list P w = (w1, inr resp)
          /\ Forall2 (hydrated (trace (fetchNotes P) w)) (items_of resp)
                     withUrls
          /\ notes s' = map Some withUrls).
Proof.
  destruct (fetchNotes_run w) as (w' & log & E & R).
  rewrite (trace_eq _ _ E). clear E.
  destruct R as [w1 e L | w1 resp w2 log ps e L A J
                 | w1 resp w2 log ps l L A J].
  - eexists. split; [reflexivity|]. simpl.
    repeat split; try discriminate; eauto 6.
  - apply map_async_hydrate_inv in A. destruct A as [R F].
    rewrite J in F.
    eexists. split.
    { simpl. rewrite settle_app, (resolutions_settle _ R). reflexivity. }
    simpl. rewrite failed_app, F. simpl.
    repeat split; try discriminate.
    + right. right. apply in_or_app. right. right. left. reflexivity.
    + exists e. right. right. apply in_or_app. right. left. reflexivity.
  - apply map_async_hydrate_inv in A. destruct A as [R F].
    rewrite J in F. destruct F as [F H].
    eexists. split.
    { simpl. rewrite settle_app, (resolutions_settle _ R). reflexivity. }
    simpl. rewrite failed_app, F. simpl.
    repeat split; try discriminate.
    intros _. exists w1, resp, l. repeat split; [exact L|].
    eapply Forall2_impl; [|exact H].
    intros a b Hab.
    apply (hydrated_weaken
             [SetBusy true; Remote NoteList (inr (Listed resp))] log
             [SetNotes (Replace l); SetBusy false]) in Hab.
    exact Hab.
Qed.

(** *** Claims *)

(** C1.  Whenever a fetch fails (the list call or one of the signed-URL
    resolutions rejects), the list on display is exactly the one from
    before the call, the user gets an alert, the cause goes to the
    console, and [busy] is false afterwards.  In general the list is
    either left untouched or replaced by the hydration of every record
    the store returned: nothing in between. *)
Theorem fetchNotes_all_or_nothing (w : World) (s : UiState) :
  exists s',
    settle (trace (fetchNotes P) w) s = Some s'
    /\ busy s' = false
    /\ (failed (trace (fetchNotes P) w) = true ->
        notes s' = notes s
        /\ In (Alert "Error fetching notes. Check console for details.")
              (trace (fetchNotes P) w)
        /\ exists err,
             In (ConsoleError "Error fetching notes:" err)
                (trace (fetchNotes P) w))
    /\ (notes s' = notes s
        \/ exists w1 resp withUrls,
             Note_list P w = (w1, inr resp)
             /\ Forall2 (hydrated (trace (fetchNotes P) w)) (items_of resp)
                        withUrls
             /\ notes s' = map Some withUrls).
Proof.
  destruct (fetch_outcome w s) as (s' & S & B & _ & _ & Bad & Good).
  exists s'. split; [exact S|]. split; [exact B|]. split; [exact Bad|].
  destruct (failed (trace (fetchNotes P) w)).
  - left. apply Bad. reflexivity.
  - right. apply Good. reflexivity.
Qed.

(** C2.  With an empty title or an empty content, [createNote] only
    raises the validation alert: it issues no remote call, does not touch
    the platform, and leaves note list, form fields and file selection
    (and the busy flag) as they were. *)
Theorem createNote_validation (formData : FormData) (file : option File)
    (w : World) (s : UiState) :
  form_title formData = EmptyString \/ form_content formData = EmptyString ->
  createNote P formData file w
  = (w, [Alert "Please provide a title and content"], inr tt)
  /\ calls (trace (createNote P formData file) w) = []
  /\ settle (trace (createNote P formData file) w) s = Some s.
Proof.
  intros H.
  assert (E : createNote P formData file w
              = (w, [Alert "Please provide a title and content"], inr tt)).
  { unfold createNote.
    destruct H as [H | H]; rewrite H; simpl; [reflexivity|].
    rewrite orb_true_r. reflexivity. }
  rewrite (trace_eq _ _ E). split; [exact E|]. split; reflexivity.
Qed.

Lemma nonempty_true (p : string) : nonempty p = true <-> p <> EmptyString.
Proof.
  destruct p; simpl; split; try discriminate; try reflexivity.
  intros N. contradiction N. reflexivity.
Qed.

(** [hydrated] spelled out on the fields of the record and of the note. *)
Lemma hydrated_fields (log : Log) (r : NoteRecord) (n : Note) :
  hydrated log r n ->
  stored n = r
  /\ (forall p, imagePath r = Some p -> p <> EmptyString ->
        exists url, imageUrl n = Some url
                    /\ In (Remote (GetUrl p) (inr (Signed url))) log)
  /\ (imagePath r = None \/ imagePath r = Some EmptyString ->
      imageUrl n = None).
Proof.
  unfold hydrated.
  destruct (imagePath r) as [p|] eqn:Ip; [destruct (nonempty p) eqn:Np|].
  - intros [url [-> H]]. split; [reflexivity|]. split.
    + intros p' [= <-] _. exists url. auto.
    + intros [Absurd | [= ->]]; discriminate.
  - intros ->. split; [reflexivity|]. split; [|reflexivity].
    intros p' [= <-] Ne. apply nonempty_true in Ne. congruence.
  - intros ->. split; [reflexivity|]. split; [|reflexivity].
    intros p' Absurd. discriminate.
Qed.

Lemma Forall2_stored (log : Log) (items : list NoteRecord)
    (withUrls : list Note) :
  Forall2 (hydrated log) items withUrls -> map stored withUrls = items.
Proof.
  induction 1 as [|r n items withUrls H _ IH]; simpl; [reflexivity|].
  apply hydrated_fields in H. destruct H as [-> _]. rewrite IH. reflexivity.
Qed.

(** C6.  A fetch in which no call rejects replaces the list by one note
    per record of the array the store returned, in the store's order and
    with the record's own fields: for a record whose image path is
    present (not null, not the empty string) the note's [imageUrl] is a
    URL the blob gateway resolved for that path in this run; for a record
    without one the note has no [imageUrl].  When the response or its
    [data] is null the list becomes empty. *)
Theorem fetchNotes_hydrates_in_order (w : World) (s : UiState) :
  failed (trace (fetchNotes P) w) = false ->
  exists s' w1 resp withUrls,
    Note_list P w = (w1, inr resp)
    /\ settle (trace (fetchNotes P) w) s = Some s'
    /\ notes s' = map Some withUrls
    /\ (forall items, resp = Some {| list_data := Some items |} ->
          map stored withUrls = items
          /\ List.length withUrls = List.length items
          /\ Forall2
               (fun r n =>
                  stored n = r
                  /\ (forall p, imagePath r = Some p -> p <> EmptyString ->
                        exists url,
                          imageUrl n = Some url
                          /\ In (Remote (GetUrl p) (inr (Signed url)))
                                (trace (fetchNotes P) w))
                  /\ (imagePath r = None \/ imagePath r = Some EmptyString ->
                      imageUrl n = None))
               items withUrls)
    /\ (resp = None \/ resp = Some {| list_data := None |} ->
        withUrls = []).
Proof.
  intros Ok.
  destruct (fetch_outcome w s) as (s' & S & _ & _ & _ & _ & Good).
  destruct (Good Ok) as (w1 & resp & withUrls & L & H & N).
  exists s', w1, resp, withUrls.
  split; [exact L|]. split; [exact S|]. split; [exact N|]. split.
  - intros items ->. simpl in H.
    split; [eapply Forall2_stored; exact H|].
    split; [symmetry; eapply Forall2_length; exact H|].
    eapply Forall2_impl; [|exact H].
    intros r n Hrn. eapply hydrated_fields. exact Hrn.
  - intros [-> | ->]; simpl in H; inversion H; reflexivity.
Qed.

Lemma blob_step_skipped (note : Note) (w w1 : World) (pre : Log) :
  present (imagePath (stored note)) = false ->
  blob_step P note w w1 pre -> w1 = w /\ pre = [].
Proof.
  intros A B. destruct B as [_ | p w1 Ip Np _]; [split; reflexivity|].
  unfold present in A. rewrite Ip, Np in A. discriminate.
Qed.

Lemma blob_step_removed (note : Note) (w w1 : World) (pre : Log) (p : string) :
  imagePath (stored note) = Some p -> nonempty p = true ->
  blob_step P note w w1 pre ->
  remove P p w = (w1, inr tt) /\ pre = [Remote (Remove p) (inr Removed)].
Proof.
  intros Ip Np B. destruct B as [A | p' w1 Ip' _ R].
  - unfold present in A. rewrite Ip, Np in A. discriminate.
  - rewrite Ip in Ip'. injection Ip' as <-. split; [exact R | reflexivity].
Qed.

(** C3.  A confirmed delete of a note without image path issues the
    record delete and nothing else.  With an image path it issues the
    blob delete first: when that resolves, the record delete follows;
    when it rejects, no record delete is issued (so the record stays in
    the store) and the list on display is unchanged. *)
Theorem deleteNote_blob_then_record (note : Note) (w w0 : World) :
  confirm P "Delete this note?" w = (w0, true) ->
  (present (imagePath (stored note)) = false ->
   calls (trace (deleteNote P note) w)
   = [NoteDelete [("id", id (stored note))]])
  /\ (forall p, imagePath (stored note) = Some p -> nonempty p = true ->
      (forall w1, remove P p w0 = (w1, inr tt) ->
         calls (trace (deleteNote P note) w)
         = [Remove p; NoteDelete [("id", id (stored note))]])
      /\ (forall w1 err, remove P p w0 = (w1, inl err) ->
            calls (trace (deleteNote P note) w) = [Remove p]
            /\ forall s, exists s',
                 settle (trace (deleteNote P note) w) s = Some s'
                 /\ notes s' = notes s)).
Proof.
  intros Q.
  destruct (deleteNote_run note w) as (w' & log & E & R).
  rewrite (trace_eq _ _ E). clear E.
  split; [intros A | intros p Ip Np; split; [intros w1 Rm | intros w1 err Rm]].
  - destruct R as [w0' Q' | w0' p w1 e Q' Ip Np _
                   | w0' w1 pre w2 e Q' B _ | w0' w1 pre w2 Q' B _];
      same_response.
    + unfold present in A. rewrite Ip, Np in A. discriminate.
    + destruct (blob_step_skipped A B) as [-> ->]. reflexivity.
    + destruct (blob_step_skipped A B) as [-> ->]. reflexivity.
  - destruct R as [w0' Q' | w0' p' w1' e Q' Ip' Np' Rm'
                   | w0' w1' pre w2 e Q' B _ | w0' w1' pre w2 Q' B _];
      same_response.
    + destruct (blob_step_removed Ip Np B) as [_ ->]. reflexivity.
    + destruct (blob_step_removed Ip Np B) as [_ ->]. reflexivity.
  - destruct R as [w0' Q' | w0' p' w1' e Q' Ip' Np' Rm'
                   | w0' w1' pre w2 e Q' B _ | w0' w1' pre w2 Q' B _];
      same_response.
    + split; [reflexivity|]. intros s. eexists. split; reflexivity.
    + destruct (blob_step_removed Ip Np B) as [Rm' _]. same_response.
    + destruct (blob_step_removed Ip Np B) as [Rm' _]. same_response.
Qed.

(** C4.  In a create that goes through with a file selected, for the
    record [n] the store created: the blob is uploaded under
    [images/{id}-{filename}], with the file itself as data and the
    file's [type] as content type, and the record update that follows
    sends the path the upload resolved with.  For id 123 and photo.png
    the upload path is images/123-photo.png. *)
Theorem createNote_upload_path (formData : FormData) (f : File)
    (w w1 : World) (created : DataResult) (n : NoteRecord) :
  nonempty (form_title formData) = true ->
  nonempty (form_content formData) = true ->
  failed (trace (createNote P formData (Some f)) w) = false ->
  Note_create P (create_input formData) w = (w1, inr created) ->
  data created = Some n ->
  (exists path,
     In (Remote
           (UploadData ("images/" ++ id n ++ "-" ++ file_name f)%string f
                       (file_type f))
           (inr (Uploaded path)))
        (trace (createNote P formData (Some f)) w)
     /\ calls (trace (createNote P formData (Some f)) w)
        = [NoteCreate [("title", form_title formData);
                       ("content", form_content formData)];
           UploadData ("images/" ++ id n ++ "-" ++ file_name f)%string f
                      (file_type f);
           NoteUpdate [("id", id n); ("imagePath", path)]])
  /\ upload_path "123" "photo.png" = "images/123-photo.png".
Proof.
  intros Ht Hc Ok C D. split; [|reflexivity].
  destruct (createNote_run formData (Some f) w) as (w' & log & E & R).
  rewrite (trace_eq _ _ E) in *. clear E.
  destruct R as [V | w1' e _ _ C' | w1' cr _ _ C' [F | D']
                 | w1' cr f' n' w2 e _ _ C' F D' U
                 | w1' cr f' n' w2 path w3 e _ _ C' F D' U Up
                 | w1' cr f' n' w2 path w3 upd _ _ C' F D' U Up];
    try (simpl in Ok; discriminate); same_response.
  - destruct V as [V | V]; [rewrite Ht in V | rewrite Hc in V]; discriminate.
  - injection F as <-. exists path. split; [|reflexivity].
    simpl. right. right. left. reflexivity.
Qed.

(** C9.  When the record create resolves with [data] null, [createNote]
    issues no upload and no update, whether or not a file is selected:
    it appends the null to the list, clears the form and the file
    selection, raises no alert and logs nothing.  The list then holds an
    entry that is not a note. *)
Theorem createNote_null_record (form : FormData) (picked : option File)
    (w w1 : World) (created : DataResult) :
  nonempty (form_title form) = true ->
  nonempty (form_content form) = true ->
  Note_create P (create_input form) w = (w1, inr created) ->
  data created = None ->
  createNote P form picked w
  = (w1,
     [SetBusy true;
      Remote (NoteCreate (create_input form)) (inr (Data created));
      SetNotes (Append None); SetFormData empty_form; SetFile None;
      SetBusy false],
     inr tt)
  /\ forall s, exists s',
       settle (trace (createNote P form picked) w) s = Some s'
       /\ notes s' = notes s ++ [None]
       /\ In None (notes s')
       /\ formData s' = empty_form /\ file s' = None /\ busy s' = false.
Proof.
  intros Ht Hc C D.
  assert (E : createNote P form picked w
              = (w1,
                 [SetBusy true;
                  Remote (NoteCreate (create_input form))
                         (inr (Data created));
                  SetNotes (Append None); SetFormData empty_form;
                  SetFile None; SetBusy false],
                 inr tt)).
  { unfold createNote. rewrite Ht, Hc. simpl.
    unfold try_catch_finally, bind, emit, remote, await, ret.
    fold (create_input form). rewrite C, D.
    destruct picked; reflexivity. }
  split; [exact E|]. intros s. rewrite (trace_eq _ _ E).
  eexists. split; [reflexivity|]. simpl.
  repeat split. apply in_or_app. right. left. reflexivity.
Qed.

(** *** Busy flag *)

Lemma without_id_total (i : string) (prev : list (option Note)) :
  forallb (fun e => match e with Some _ => true | None => false end) prev
  = true ->
  exists l, without_id i prev = Some l /\ incl l prev.
Proof.
  induction prev as [|[n|] prev IH]; simpl; intros H.
  - exists []. split; [reflexivity | apply incl_refl].
  - destruct (IH H) as (l & -> & I).
    destruct (String.eqb (id (stored n)) i); eexists; (split; [reflexivity|]).
    + apply incl_tl. exact I.
    + apply incl_cons; [left; reflexivity | apply incl_tl; exact I].
  - discriminate.
Qed.

(** Replaying the log of any run of [deleteNote] on a state whose list
    holds notes only. *)
Lemma delete_outcome (note : Note) (w : World) (s : UiState) :
  renders s = true ->
  exists s',
    settle (trace (deleteNote P note) w) s = Some s'
    /\ incl (notes s') (notes s)
    /\ (busy s = false -> busy s' = false)
    /\ (calls (trace (deleteNote P note) w) <> [] -> busy s' = false)
    /\ guarded false (trace (deleteNote P note) w) = true.
Proof.
  intros Rd.
  destruct (deleteNote_run note w) as (w' & log & E & R).
  rewrite (trace_eq _ _ E). clear E.
  destruct (without_id_total (id (stored note)) _ Rd) as (l & Wi & I).
  destruct R as [w0 Q | w0 p w1 e Q Ip Np Rm
                 | w0 w1 pre w2 e Q B D | w0 w1 pre w2 Q B D].
  - exists s. simpl. repeat split; auto using incl_refl. congruence.
  - eexists. split; [reflexivity|]. simpl. repeat split; auto using incl_refl.
  - destruct B; (eexists; split; [reflexivity|]); simpl;
      repeat split; auto using incl_refl.
  - destruct B; simpl; rewrite Wi; (eexists; split; [reflexivity|]); simpl;
      repeat split; auto.
Qed.

(** Replaying the log of any run of [createNote]. *)
Lemma create_outcome (form : FormData) (picked : option File) (w : World)
    (s : UiState) :
  exists s',
    settle (trace (createNote P form picked) w) s = Some s'
    /\ (busy s = false -> busy s' = false)
    /\ (calls (trace (createNote P form picked) w) <> [] -> busy s' = false)
    /\ guarded false (trace (createNote P form picked) w) = true
    /\ (notes s' = notes s
        \/ exists final, notes s' = notes s ++ [option_map plain final]).
Proof.
  destruct (createNote_run form picked w) as (w' & log & E & R).
  rewrite (trace_eq _ _ E). clear E.
  destruct R; (eexists; split; [reflexivity|]); simpl;
    repeat split; auto; try congruence; right; eexists; reflexivity.
Qed.

(** C5.  In every run of the three workflows, whatever the platform
    answers, each remote call is issued after [setBusy(true)] and before
    [setBusy(false)] (a log starting from a clear flag is guarded), and
    when the run is over the flag is false: always once a remote call has
    been made, and in the runs that return early provided it was false
    when the action was accepted. *)
Theorem busy_brackets_every_workflow (s : UiState) (i : Intent) (w : World) :
  guarded false (trace (handle P s i) w) = true
  /\ (renders s = true ->
      exists s',
        settle (trace (handle P s i) w) s = Some s'
        /\ (busy s = false -> busy s' = false)
        /\ (calls (trace (handle P s i) w) <> [] -> busy s' = false)).
Proof.
  destruct i as [| | n]; simpl.
  - split.
    + destruct (fetchNotes_run w) as (w' & log & E & R).
      rewrite (trace_eq _ _ E).
      destruct R as [? ? ? | ? ? ? ? ? ? ? A ? | ? ? ? ? ? ? ? A ?];
        [reflexivity | |];
        apply map_async_hydrate_inv in A; destruct A as [A _];
        simpl; rewrite (resolutions_guarded _ A); reflexivity.
    + intros _. destruct (fetch_outcome w s) as (s' & S & B & _).
      exists s'. repeat split; auto.
  - destruct (create_outcome (formData s) (file s) w s)
      as (s' & S & B1 & B2 & G & _).
    split; [exact G|]. intros _. exists s'. repeat split; assumption.
  - split.
    + destruct (deleteNote_run n w) as (w' & log & E & R).
      rewrite (trace_eq _ _ E).
      destruct R as [? ? | ? ? ? ? ? ? ? ? | ? ? ? ? ? ? B ? | ? ? ? ? ? B ?];
        try reflexivity; destruct B; reflexivity.
    + intros Rd.
      destruct (delete_outcome n w s Rd) as (s' & S & _ & B1 & B2 & _).
      exists s'. repeat split; assumption.
Qed.

(** *** Where an [imageUrl] comes from *)

Lemma hydrated_url_rule (log : Log) (r : NoteRecord) (n : Note) :
  hydrated log r n -> url_rule log n.
Proof.
  unfold hydrated, url_rule, resolved_in.
  destruct (imagePath r) as [p|] eqn:Ip; [destruct (nonempty p) eqn:Np|].
  - intros [url [-> H]]. simpl. rewrite Ip. split; [split|].
    + intros _. exists p, url. auto.
    + discriminate.
    + intros url' [= <-]. exists p. auto.
  - intros ->. simpl. rewrite Ip. split; [split|].
    + intros N. contradiction N. reflexivity.
    + intros (p' & url & [= <-] & Np' & _). congruence.
    + discriminate.
  - intros ->. simpl. rewrite Ip. split; [split|].
    + intros N. contradiction N. reflexivity.
    + intros (p' & url & Absurd & _). discriminate.
    + discriminate.
Qed.

(** A note that enters the list without [imageUrl] obeys the rule when
    the run resolved no signed URL at all. *)
Lemma plain_url_rule (log : Log) (r : NoteRecord) :
  (forall p o, ~ In (Remote (GetUrl p) o) log) -> url_rule log (plain r).
Proof.
  intros No. unfold url_rule, resolved_in. simpl. split; [split|].
  - intros N. contradiction N. reflexivity.
  - intros (p & url & _ & _ & H). destruct (No _ _ H).
  - discriminate.
Qed.

Lemma Forall2_In_right {A B} (R : A -> B -> Prop) (l : list A) (l' : list B)
    (b : B) :
  Forall2 R l l' -> In b l' -> exists a, In a l /\ R a b.
Proof.
  induction 1 as [|a b' l l' Hab _ IH]; simpl; [tauto|].
  intros [<- | H].
  - exists a. auto.
  - destruct (IH H) as (a' & Ia & Ra). exists a'. auto.
Qed.

Lemma fetch_installs (w : World) (s : UiState) :
  exists s',
    settle (trace (fetchNotes P) w) s = Some s'
    /\ (forall n, In (Some n) (notes s') ->
          In (Some n) (notes s) \/ url_rule (trace (fetchNotes P) w) n)
    /\ (forall c, In c (calls (trace (fetchNotes P) w)) -> store_keys_ok c).
Proof.
  destruct (fetch_outcome w s) as (s' & S & _ & _ & _ & Bad & Good).
  exists s'. split; [exact S|]. split.
  - intros n I.
    destruct (failed (trace (fetchNotes P) w)).
    + left. destruct Bad as [<- _]; auto.
    + right. destruct Good as (w1 & resp & withUrls & _ & H & N); auto.
      rewrite N in I. apply in_map_iff in I.
      destruct I as (n' & [= ->] & I).
      destruct (Forall2_In_right _ H I) as (r & _ & Hr).
      eapply hydrated_url_rule. exact Hr.
  - clear. intros c I.
    assert (K : c = NoteList \/ exists p, c = GetUrl p).
    { destruct (fetchNotes_run w) as (w' & log & E & R).
      rewrite (trace_eq _ _ E) in I. clear E.
      destruct R as [? ? ? | ? ? ? ? ? ? ? A ? | ? ? ? ? ? ? ? A ?];
        simpl in I.
      - destruct I as [<- | []]. left. reflexivity.
      - apply map_async_hydrate_inv in A. destruct A as [A _].
        rewrite calls_app in I. simpl in I. rewrite app_nil_r in I.
        destruct I as [<- | I]; [left; reflexivity | right].
        exact (resolutions_calls _ A I).
      - apply map_async_hydrate_inv in A. destruct A as [A _].
        rewrite calls_app in I. simpl in I. rewrite app_nil_r in I.
        destruct I as [<- | I]; [left; reflexivity | right].
        exact (resolutions_calls _ A I). }
    destruct K as [-> | [p ->]];
      (split; [simpl; tauto | intros input; discriminate]).
Qed.

Lemma create_installs (form : FormData) (picked : option File) (w : World)
    (s : UiState) :
  exists s',
    settle (trace (createNote P form picked) w) s = Some s'
    /\ (forall n, In (Some n) (notes s') ->
          In (Some n) (notes s)
          \/ url_rule (trace (createNote P form picked) w) n)
    /\ (forall c, In c (calls (trace (createNote P form picked) w)) ->
          store_keys_ok c)
    /\ (forall p o,
          ~ In (Remote (GetUrl p) o) (trace (createNote P form picked) w)).
Proof.
  destruct (createNote_run form picked w) as (w' & log & E & R).
  rewrite (trace_eq _ _ E). clear E.
  assert (No : forall p o, ~ In (Remote (GetUrl p) o) log).
  { intros p o. destruct R; simpl; intuition discriminate. }
  destruct R; (eexists; split; [reflexivity|]); simpl;
    (split; [|split; [|exact No]]); auto.
  all: try (intros c I; pick_call I; check_keys).
  all: intros n0 I; apply in_app_or in I; destruct I as [I | [I | []]];
    [left; exact I | right].
  all: match type of I with
       | option_map plain ?d = _ =>
           destruct d; [injection I as <- | discriminate]
       end; apply plain_url_rule; exact No.
Qed.

Lemma delete_installs (note : Note) (w : World) (s : UiState) :
  renders s = true ->
  exists s',
    settle (trace (deleteNote P note) w) s = Some s'
    /\ incl (notes s') (notes s)
    /\ (forall c, In c (calls (trace (deleteNote P note) w)) ->
          store_keys_ok c).
Proof.
  intros Rd.
  destruct (delete_outcome note w s Rd) as (s' & S & I & _).
  exists s'. split; [exact S|]. split; [exact I|].
  destruct (deleteNote_run note w) as (w' & log & E & R).
  rewrite (trace_eq _ _ E). clear E.
  intros c Ic.
  destruct R as [? ? | ? ? ? ? ? ? ? ? | ? ? ? ? ? ? B ? | ? ? ? ? ? B ?];
    try destruct B; pick_call Ic; check_keys.
Qed.

Lemma url_rule_has_path (log : Log) (n : Note) :
  url_rule log n -> url_has_path (Some n).
Proof.
  intros [[Only _] _] n' [= <-] U.
  destruct (Only U) as (p & url & Ip & Np & _).
  unfold present. rewrite Ip. exact Np.
Qed.

(** C8 (amended).  After any run of any workflow, every note in the
    list either was there before, unchanged, or was installed by this
    run; a note installed by the run has an [imageUrl] exactly when its
    [imagePath] is present and the signed-URL request for that path
    succeeded in the run, the URL being the one the blob gateway
    returned.  A note that was kept is not re-examined (it may have a
    present path and no URL), but entries whose [imageUrl] implies a
    present [imagePath] stay that way.  No call to the structured-data
    store carries an [imageUrl] property; an update carries [id] and
    [imagePath] and nothing else. *)
Theorem imageUrl_follows_resolution (s : UiState) (i : Intent) (w : World) :
  renders s = true ->
  exists s',
    settle (trace (handle P s i) w) s = Some s'
    /\ (forall n, In (Some n) (notes s') ->
          In (Some n) (notes s) \/ url_rule (trace (handle P s i) w) n)
    /\ (Forall url_has_path (notes s) -> Forall url_has_path (notes s'))
    /\ (forall c, In c (calls (trace (handle P s i) w)) ->
          ~ In "imageUrl" (sent_keys c)
          /\ forall input, c = NoteUpdate input ->
                           keys input = ["id"; "imagePath"]).
Proof.
  intros Rd.
  assert (Step : exists s',
             settle (trace (handle P s i) w) s = Some s'
             /\ (forall n, In (Some n) (notes s') ->
                   In (Some n) (notes s)
                   \/ url_rule (trace (handle P s i) w) n)
             /\ (forall c, In c (calls (trace (handle P s i) w)) ->
                   store_keys_ok c)).
  { destruct i as [| | note]; simpl.
    - apply fetch_installs.
    - destruct (create_installs (formData s) (file s) w s)
        as (s' & S & I & K & _).
      exists s'. auto.
    - destruct (delete_installs note w s Rd) as (s' & S & I & K).
      exists s'. split; [exact S|]. split; [|exact K].
      intros n H. left. apply I. exact H. }
  destruct Step as (s' & S & I & K).
  exists s'. split; [exact S|]. split; [exact I|]. split; [|exact K].
  intros Old. apply Forall_forall. intros [n|] H.
  - destruct (I n H) as [Was | New].
    + exact (proj1 (Forall_forall _ _) Old _ Was).
    + exact (url_rule_has_path New).
  - intros n Absurd. discriminate.
Qed.

(** *** What [createNote] appends *)

(** C7.  A create that goes through appends one entry at the end of the
    list and leaves the entries before it as they were: the record the
    update resolved with when a file was attached, the record the create
    resolved with otherwise.  The draft is reset to empty title and
    content and the file selection to none.  On the reference platform,
    creating title A, content B without a file from the empty list gives
    the one-entry list with that title and content and no image path. *)
Theorem createNote_appends_final_record (form : FormData)
    (picked : option File) (w : World) (s : UiState) :
  nonempty (form_title form) = true ->
  nonempty (form_content form) = true ->
  failed (trace (createNote P form picked) w) = false ->
  (exists s' w1 created final,
     Note_create P (create_input form) w = (w1, inr created)
     /\ settle (trace (createNote P form picked) w) s = Some s'
     /\ notes s' = notes s ++ [option_map plain final]
     /\ formData s' = empty_form /\ file s' = None
     /\ ((picked = None \/ data created = None) /\ final = data created
         \/ exists f n path updated,
              picked = Some f /\ data created = Some n
              /\ In (Remote (NoteUpdate (update_input n path))
                            (inr (Data updated)))
                    (trace (createNote P form picked) w)
              /\ final = data updated))
  /\ (exists s',
        settle (trace (createNote Demo.platform
                         {| form_title := "A"; form_content := "B" |} None)
                      (Demo.fresh []))
               initial = Some s'
        /\ notes s'
           = [Some {| stored := {| id := "123"; title := "A"; content := "B";
                                   imagePath := None |};
                      imageUrl := None |}]).
Proof.
  intros Ht Hc Ok. split; [|eexists; split; reflexivity].
  destruct (createNote_run form picked w) as (w' & log & E & R).
  rewrite (trace_eq _ _ E) in *. clear E.
  destruct R as [V | w1 e _ _ C | w1 cr _ _ C Plain
                 | w1 cr f n w2 e _ _ C F D U
                 | w1 cr f n w2 path w3 e _ _ C F D U Up
                 | w1 cr f n w2 path w3 upd _ _ C F D U Up];
    try (simpl in Ok; discriminate).
  - destruct V as [V | V]; [rewrite Ht in V | rewrite Hc in V]; discriminate.
  - exists {| notes := notes s ++ [option_map plain (data cr)];
              formData := empty_form; file := None; busy := false |},
           w1, cr, (data cr).
    repeat split; auto.
  - exists {| notes := notes s ++ [option_map plain (data upd)];
              formData := empty_form; file := None; busy := false |},
           w1, cr, (data upd).
    repeat split; auto. right. exists f, n, path, upd.
    repeat split; auto. simpl. auto.
Qed.



(** *** Failure paths of [createNote] and [deleteNote] *)

(** X1.  When a remote call of [createNote] rejects (the create, the
    upload or the update), the run leaves the list, the draft and the
    file selection as they were, so the user can retry; it writes the
    cause to the console, raises the alert and ends with [busy] false. *)
Theorem createNote_failure_keeps_state (form : FormData)
    (picked : option File) (w : World) (s : UiState) :
  failed (trace (createNote P form picked) w) = true ->
  exists s',
    settle (trace (createNote P form picked) w) s = Some s'
    /\ notes s' = notes s /\ formData s' = formData s /\ file s' = file s
    /\ busy s' = false
    /\ In (Alert "Error creating note. Check console for details.")
          (trace (createNote P form picked) w)
    /\ exists err,
         In (ConsoleError "Error creating note:" err)
            (trace (createNote P form picked) w).
Proof.
  intros Bad.
  destruct (createNote_run form picked w) as (w' & log & E & R).
  rewrite (trace_eq _ _ E) in *. clear E.
  destruct R; try (simpl in Bad; discriminate);
    (eexists; split; [reflexivity|]); simpl;
    repeat (split; [reflexivity|]);
    (split; [tauto | eexists; eauto 8]).
Qed.

(** X2.  When a remote call of [deleteNote] rejects (the blob delete or
    the record delete), the list is left as it was, also when the blob
    is already gone; the alert is raised and [busy] ends false. *)
Theorem deleteNote_failure_keeps_list (note : Note) (w : World)
    (s : UiState) :
  failed (trace (deleteNote P note) w) = true ->
  exists s',
    settle (trace (deleteNote P note) w) s = Some s'
    /\ notes s' = notes s /\ formData s' = formData s /\ file s' = file s
    /\ busy s' = false
    /\ In (Alert "Error deleting note. Check console for details.")
          (trace (deleteNote P note) w).
Proof.
  intros Bad.
  destruct (deleteNote_run note w) as (w' & log & E & R).
  rewrite (trace_eq _ _ E) in *. clear E.
  destruct R as [w0 Q | w0 p w1 e Q Ip Np Rm
                 | w0 w1 pre w2 e Q B D | w0 w1 pre w2 Q B D].
  - simpl in Bad. discriminate.
  - eexists. split; [reflexivity|]. simpl.
    repeat (split; [reflexivity|]). tauto.
  - destruct B; (eexists; split; [reflexivity|]); simpl;
      repeat (split; [reflexivity|]); tauto.
  - destruct B; simpl in Bad; discriminate.
Qed.

Lemma stops_at_rejection_spec (log l1 l2 : Log) (e : Effect Err) :
  stops_at_rejection log = true ->
  log = l1 ++ e :: l2 -> threw e = true -> calls l2 = [].
Proof.
  revert log. induction l1 as [|a l1 IH]; intros log S -> T; simpl in S.
  - rewrite T in S. destruct (calls l2); [reflexivity | discriminate].
  - destruct (threw a) eqn:Ta.
    + rewrite calls_app in S. simpl in S.
      destruct e; try discriminate.
      destruct (calls l1); discriminate.
    + exact (IH _ S eq_refl T).
Qed.

(** X3.  [createNote] and [deleteNote] await their remote calls one
    after the other: once a call has rejected, the run issues no further
    remote call (no update after a failed upload, no record delete after
    a failed blob delete). *)
Theorem sequential_workflows_stop_at_rejection (s : UiState) (i : Intent)
    (w : World) (l1 l2 : Log) (e : Effect Err) :
  i <> Refresh ->
  trace (handle P s i) w = l1 ++ e :: l2 ->
  threw e = true ->
  calls l2 = [].
Proof.
  intros Seq. apply stops_at_rejection_spec.
  destruct i as [| | note]; [contradiction Seq; reflexivity | |]; simpl.
  - destruct (createNote_run (formData s) (file s) w) as (w' & log & E & R).
    rewrite (trace_eq _ _ E). destruct R; reflexivity.
  - destruct (deleteNote_run note w) as (w' & log & E & R).
    rewrite (trace_eq _ _ E).
    destruct R as [? ? | ? ? ? ? ? ? ? ? | ? ? ? ? ? ? B ? | ? ? ? ? ? B ?];
      try destruct B; reflexivity.
Qed.

(** X4.  When the user declines the confirmation, [deleteNote] does
    nothing at all: no remote call, no setter, no alert; the state,
    including [busy], is what it was. *)
Theorem deleteNote_declined_is_inert (note : Note) (w w0 : World)
    (s : UiState) :
  confirm P "Delete this note?" w = (w0, false) ->
  deleteNote P note w = (w0, [Confirm "Delete this note?" false], inr tt)
  /\ calls (trace (deleteNote P note) w) = []
  /\ settle (trace (deleteNote P note) w) s = Some s.
Proof.
  intros Q.
  assert (E : deleteNote P note w
              = (w0, [Confirm "Delete this note?" false], inr tt)).
  { unfold deleteNote, bind, ask. rewrite Q. reflexivity. }
  rewrite (trace_eq _ _ E). split; [exact E|]. split; reflexivity.
Qed.

Lemma without_id_filter (i : string) (prev : list (option Note)) :
  forallb (fun e => match e with Some _ => true | None => false end) prev
  = true ->
  without_id i prev
  = Some (filter (fun e => match e with
                           | Some n => negb (String.eqb (id (stored n)) i)
                           | None => true
                           end) prev).
Proof.
  induction prev as [|[n|] prev IH]; simpl; intros H;
    [reflexivity | | discriminate].
  rewrite (IH H). destruct (String.eqb (id (stored n)) i); reflexivity.
Qed.

(** X5.  A confirmed delete in which no call rejects removes from the
    list every entry whose id is the note's id and keeps the other
    entries in their order; the draft and the file selection are not
    touched and [busy] ends false. *)
Theorem deleteNote_removes_by_id (note : Note) (w w0 : World)
    (s : UiState) :
  confirm P "Delete this note?" w = (w0, true) ->
  failed (trace (deleteNote P note) w) = false ->
  renders s = true ->
  exists s',
    settle (trace (deleteNote P note) w) s = Some s'
    /\ notes s'
       = filter (fun e => match e with
                          | Some n =>
                              negb (String.eqb (id (stored n))
                                               (id (stored note)))
                          | None => true
                          end) (notes s)
    /\ (forall n, In (Some n) (notes s') ->
          id (stored n) <> id (stored note))
    /\ formData s' = formData s /\ file s' = file s /\ busy s' = false.
Proof.
  intros Q Ok Rd.
  destruct (deleteNote_run note w) as (w' & log & E & R).
  rewrite (trace_eq _ _ E) in *. clear E.
  pose proof (without_id_filter (id (stored note)) _ Rd) as Wi.
  destruct R as [w0' Q' | w0' p w1 e Q' Ip Np Rm
                 | w0' w1 pre w2 e Q' B D | w0' w1 pre w2 Q' B D];
    same_response; try (simpl in Ok; discriminate).
  - destruct B; simpl in Ok; discriminate.
  - assert (S : settle
                  (Confirm "Delete this note?" true :: SetBusy true :: pre ++
                   [Remote (NoteDelete (delete_input note)) (inr Deleted);
                    SetNotes (RemoveId (id (stored note))); SetBusy false]) s
                = Some {| notes := filter
                            (fun e => match e with
                                      | Some n =>
                                          negb (String.eqb (id (stored n))
                                                           (id (stored note)))
                                      | None => true
                                      end) (notes s);
                          formData := formData s; file := file s;
                          busy := false |}).
    { destruct B; simpl; rewrite Wi; reflexivity. }
    eexists. split; [exact S|]. simpl.
    split; [reflexivity|]. split; [|repeat split].
    intros n I. apply filter_In in I. destruct I as [_ I].
    intros Same. rewrite Same, String.eqb_refl in I. discriminate.
Qed.

(** X6.  No exception escapes a workflow: whatever the platform answers,
    each of the three handlers returns normally (every rejection is
    caught by the handler's own [catch]). *)
Theorem workflows_never_throw (s : UiState) (i : Intent) (w : World) :
  snd (handle P s i w) = inr tt.
Proof.
  destruct i as [| | note]; simpl.
  - destruct (fetchNotes_run w) as (w' & log & E & _). rewrite E. reflexivity.
  - destruct (createNote_run (formData s) (file s) w) as (w' & log & E & _).
    rewrite E. reflexivity.
  - destruct (deleteNote_run note w) as (w' & log & E & _).
    rewrite E. reflexivity.
Qed.

(** *** The requests of [fetchNotes] *)

Lemma map_async_hydrate_calls (items : list NoteRecord) (w w1 : World)
    (log : Log) (ps : list (Promise Err Note)) :
  map_async (hydrate P) items w = (w1, log, inr ps) ->
  calls log = url_requests items.
Proof.
  revert w w1 log ps.
  induction items as [|r items IH]; intros w w1 log ps; simpl.
  - unfold ret. intros [= <- <- <-]. reflexivity.
  - unfold bind at 1, async.
    destruct (hydrate P r w) as [[wa la] o] eqn:H.
    unfold bind at 1.
    destruct (map_async_hydrate items wa) as (wb & lb & qs & E & _).
    rewrite E. unfold ret. intros [= <- <- <-].
    rewrite app_nil_r, calls_app, (IH _ _ _ _ E).
    clear - H. unfold hydrate in H.
    destruct (imagePath r) as [p|];
      [destruct (nonempty p)|];
      try (unfold ret in H; injection H as <- <- <-; reflexivity).
    unfold bind, remote, await, ret in H.
    destruct (getUrl P p w) as [wg [e|url]];
      injection H as <- <- <-; reflexivity.
Qed.

(** X7.  Once the list call has resolved, [fetchNotes] requests a signed
    URL for every record with a truthy [imagePath], in store order, and
    for no other record; all of these requests are issued even when some
    of them reject.  When the list call itself rejects it is the only
    call. *)
Theorem fetchNotes_requests_every_url (w : World) :
  (forall w1 resp,
     Note_list P w = (w1, inr resp) ->
     calls (trace (fetchNotes P) w)
     = NoteList :: url_requests (items_of resp))
  /\ (forall w1 err,
        Note_list P w = (w1, inl err) ->
        calls (trace (fetchNotes P) w) = [NoteList]).
Proof.
  destruct (fetchNotes_run w) as (w' & log & E & R).
  rewrite (trace_eq _ _ E). clear E.
  split; [intros wa resp' L' | intros wa err L'];
    destruct R as [w1 e L | w1 resp w2 log ps e L A J
                   | w1 resp w2 log ps l L A J];
    same_response; try reflexivity;
    simpl; rewrite calls_app, (map_async_hydrate_calls _ _ A);
    simpl; rewrite app_nil_r; reflexivity.
Qed.

Lemma renders_map_Some (l : list Note) (f : FormData) (p : option File)
    (b : bool) :
  renders {| notes := map Some l; formData := f; file := p; busy := b |}
  = true.
Proof.
  unfold renders. simpl. induction l as [|n l IH]; simpl; auto.
Qed.

(** X8.  What a fetch without rejection puts in the list does not depend
    on what the list held before: it is one note per record of the array
    the store returned, with that record's fields and in that order
    (the empty list when the response or its [data] is null), so stale
    entries and null entries are gone and the new list can be rendered. *)
Theorem fetchNotes_replaces_whole_list (w : World) :
  failed (trace (fetchNotes P) w) = false ->
  exists w1 resp withUrls,
    Note_list P w = (w1, inr resp)
    /\ (forall items, resp = Some {| list_data := Some items |} ->
          map stored withUrls = items)
    /\ (resp = None \/ resp = Some {| list_data := None |} ->
        withUrls = [])
    /\ forall s, exists s',
         settle (trace (fetchNotes P) w) s = Some s'
         /\ notes s' = map Some withUrls
         /\ renders s' = true.
Proof.
  intros Ok.
  destruct (fetchNotes_run w) as (w' & log & E & R).
  rewrite (trace_eq _ _ E) in *. clear E.
  destruct R as [w1 e L | w1 resp w2 log ps e L A J
                 | w1 resp w2 log ps l L A J].
  - simpl in Ok. discriminate.
  - apply map_async_hydrate_inv in A. destruct A as [_ F].
    rewrite J in F. simpl in Ok. rewrite failed_app, F in Ok. discriminate.
  - apply map_async_hydrate_inv in A. destruct A as [Rs F].
    rewrite J in F. destruct F as [_ H].
    exists w1, resp, l. split; [exact L|]. split; [|split].
    + intros items ->. simpl in H. eapply Forall2_stored. exact H.
    + intros [-> | ->]; simpl in H; inversion H; reflexivity.
    + intros s. eexists. split.
      { simpl. rewrite settle_app, (resolutions_settle _ Rs). reflexivity. }
      split; [reflexivity | apply renders_map_Some].
Qed.

(** *** Typing, saving, retrying *)

Lemma validation_only (form : FormData) (picked : option File) (w : World) :
  form_title form = EmptyString \/ form_content form = EmptyString ->
  createNote P form picked w
  = (w, [Alert "Please provide a title and content"], inr tt).
Proof.
  intros H. unfold createNote.
  destruct H as [H | H]; rewrite H; simpl; [reflexivity|].
  rewrite orb_true_r. reflexivity.
Qed.

(** X9.  What is typed is what is sent: after typing a non-empty title
    and a non-empty content, Save starts with [setBusy(true)] and a
    create call that carries exactly these two texts; typing changes
    neither the list nor the file selection. *)
Theorem typed_draft_is_sent (s : UiState) (t c : string) (w : World) :
  nonempty t = true -> nonempty c = true ->
  exists s1 s2,
    settle (edit (Err := Err) s (TypeTitle t)) s = Some s1
    /\ settle (edit (Err := Err) s1 (TypeContent c)) s1 = Some s2
    /\ notes s2 = notes s /\ file s2 = file s
    /\ exists outcome rest,
         trace (handle P s2 Save) w
         = SetBusy true
           :: Remote (NoteCreate [("title", t); ("content", c)]) outcome
           :: rest.
Proof.
  intros Ht Hc.
  do 2 eexists. split; [reflexivity|]. split; [reflexivity|]. simpl.
  split; [reflexivity|]. split; [reflexivity|].
  destruct (createNote_run {| form_title := t; form_content := c |}
                           (file s) w) as (w' & log & E & R).
  rewrite (trace_eq _ _ E). clear E.
  destruct R as [[V | V] | | | | | ];
    try (simpl in V; congruence); do 2 eexists; reflexivity.
Qed.

(** X10.  A create that went through cannot be submitted twice: it has
    emptied the draft, so the next Save is turned away by the validation
    and issues no remote call. *)
Theorem save_after_create_only_alerts (s : UiState) (w : World) :
  nonempty (form_title (formData s)) = true ->
  nonempty (form_content (formData s)) = true ->
  failed (trace (handle P s Save) w) = false ->
  exists s',
    settle (trace (handle P s Save) w) s = Some s'
    /\ forall w',
         handle P s' Save w'
         = (w', [Alert "Please provide a title and content"], inr tt).
Proof.
  intros Ht Hc Ok. simpl in *.
  destruct (createNote_run (formData s) (file s) w) as (w' & log & E & R).
  rewrite (trace_eq _ _ E) in *. clear E.
  destruct R as [[V | V] | | | | | ];
    try congruence; try (simpl in Ok; discriminate);
    (eexists; split; [reflexivity|]); intros w0;
    apply validation_only; left; reflexivity.
Qed.

(** X11.  A create that failed can be retried as it is: draft and file
    selection are kept, so the next Save runs the same workflow again,
    starting with a new create call (also when the failed run had
    already created a record). *)
Theorem save_after_failure_retries (s : UiState) (w : World) :
  failed (trace (handle P s Save) w) = true ->
  exists s',
    settle (trace (handle P s Save) w) s = Some s'
    /\ (forall w', handle P s' Save w' = handle P s Save w')
    /\ forall w', exists outcome rest,
         trace (handle P s' Save) w'
         = SetBusy true
           :: Remote (NoteCreate (create_input (formData s))) outcome
           :: rest.
Proof.
  intros Bad. simpl in *.
  destruct (createNote_run (formData s) (file s) w) as (w' & log & E & R).
  rewrite (trace_eq _ _ E) in *. clear E.
  assert (Valid : nonempty (form_title (formData s)) = true
                  /\ nonempty (form_content (formData s)) = true).
  { destruct R; try (simpl in Bad; discriminate); auto. }
  destruct Valid as [Ht Hc].
  exists {| notes := notes s; formData := formData s; file := file s;
            busy := false |}.
  split; [destruct R; try (simpl in Bad; discriminate); reflexivity|].
  simpl. split; [reflexivity|]. intros w0.
  destruct (createNote_run (formData s) (file s) w0) as (w'' & log' & E' & R').
  rewrite (trace_eq _ _ E').
  destruct R' as [[V | V] | | | | | ];
    try congruence; do 2 eexists; reflexivity.
Qed.

(** X12.  The Clear button empties the draft and the file selection and
    nothing else; a Save right after it is turned away by the validation
    without any remote call. *)
Theorem clear_then_save_only_alerts (s : UiState) :
  exists s',
    settle (edit (Err := Err) s ClearForm) s = Some s'
    /\ notes s' = notes s /\ busy s' = busy s
    /\ formData s' = empty_form /\ file s' = None
    /\ forall w,
         handle P s' Save w
         = (w, [Alert "Please provide a title and content"], inr tt).
Proof.
  eexists. split; [reflexivity|]. simpl.
  repeat (split; [reflexivity|]).
  intros w. apply validation_only. left. reflexivity.
Qed.

(** *** The view *)

Lemma render_cards_none (b : bool) (l : list (option Note)) :
  render_cards b l = None <-> In None l.
Proof.
  induction l as [|[n|] l IH]; simpl.
  - split; [discriminate | tauto].
  - destruct (render_cards b l) as [cs|].
    + split; [discriminate|]. intros [Absurd | I]; [discriminate|].
      apply IH in I. discriminate.
    + split; [intros _; right; apply IH; reflexivity | reflexivity].
  - split; [intros _; left; reflexivity | reflexivity].
Qed.

Lemma view_none (s : UiState) : view s = None <-> In None (notes s).
Proof.
  unfold view. rewrite <- (render_cards_none (busy s)).
  destruct (render_cards (busy s) (notes s)); split;
    try discriminate; reflexivity.
Qed.

Lemma renders_no_null (s : UiState) :
  renders s = true <-> ~ In None (notes s).
Proof.
  unfold renders. induction (notes s) as [|[n|] l IH]; simpl.
  - tauto.
  - rewrite IH. split; [intros H [Absurd | I]; [discriminate | tauto] | tauto].
  - split; [discriminate | intros H; contradiction H; left; reflexivity].
Qed.

Lemma view_renders (s : UiState) : view s <> None -> renders s = true.
Proof.
  intros V. apply renders_no_null. intros I. apply V, view_none. exact I.
Qed.

(** X13.  The component can be rendered exactly when its list holds no
    null entry; when it can, there is one card per entry, in list order,
    keyed by the note's id. *)
Theorem view_needs_notes_only (s : UiState) :
  (view s = None <-> In None (notes s))
  /\ forall v, view s = Some v ->
       map (fun c => Some (card_key c)) (cards v)
       = map (option_map (fun n => id (stored n))) (notes s).
Proof.
  split; [apply view_none|].
  unfold view. intros v.
  destruct (render_cards (busy s) (notes s)) as [cs|] eqn:R;
    [|discriminate].
  intros [= <-]. simpl.
  revert cs R. induction (notes s) as [|[n|] l IH]; simpl; intros cs R.
  - injection R as <-. reflexivity.
  - destruct (render_cards (busy s) l) as [cs'|]; [|discriminate].
    injection R as <-. simpl. rewrite (IH cs' eq_refl). reflexivity.
  - discriminate.
Qed.

(** X14.  When the record create resolves with [data] null, the state
    [createNote] leaves cannot be rendered: the list section would read
    [id] of the null entry. *)
Theorem null_record_breaks_view (form : FormData) (picked : option File)
    (w w1 : World) (created : DataResult) (s : UiState) :
  nonempty (form_title form) = true ->
  nonempty (form_content form) = true ->
  Note_create P (create_input form) w = (w1, inr created) ->
  data created = None ->
  exists s',
    settle (trace (createNote P form picked) w) s = Some s'
    /\ view s' = None.
Proof.
  intros Ht Hc C D.
  destruct (createNote_run form picked w) as (w' & log & E & R).
  rewrite (trace_eq _ _ E). clear E.
  destruct R as [[V | V] | w1' e _ _ C' | w1' cr _ _ C' _
                 | w1' cr f n w2 e _ _ C' F D' U
                 | w1' cr f n w2 path w3 e _ _ C' F D' U Up
                 | w1' cr f n w2 path w3 upd _ _ C' F D' U Up];
    try congruence; same_response.
  eexists. split; [reflexivity|]. apply view_none. simpl.
  rewrite D. apply in_or_app. right. left. reflexivity.
Qed.

(** *** Invariants of the states between user actions *)

Lemma edit_keeps (s s' : UiState) (e : Edit) :
  settle (edit (Err := Err) s e) s = Some s' ->
  notes s' = notes s /\ busy s' = busy s.
Proof.
  destruct e as [t | c | [[|f fs]|] |]; simpl; intros [= <-]; split;
    reflexivity.
Qed.

Lemma render_cards_flags (b : bool) (l : list (option Note))
    (cs : list Card) :
  render_cards b l = Some cs ->
  Forall (fun c => card_delete_disabled c = b) cs.
Proof.
  revert cs. induction l as [|[n|] l IH]; simpl; intros cs R.
  - injection R as <-. constructor.
  - destruct (render_cards b l) as [cs'|]; [|discriminate].
    injection R as <-. constructor; [reflexivity | apply IH; reflexivity].
  - discriminate.
Qed.

(** X15.  Between two user actions [busy] is false: whatever the
    platform did in the workflows run so far, every button of a rendered
    view (Save, Clear, Refresh and each Delete) is enabled again. *)
Theorem reachable_is_idle (s : UiState) :
  reachable P s ->
  busy s = false
  /\ forall v, view s = Some v ->
       save_disabled v = false /\ clear_disabled v = false
       /\ refresh_disabled v = false
       /\ Forall (fun c => card_delete_disabled c = false) (cards v).
Proof.
  intros Re.
  assert (B : busy s = false).
  { induction Re as [| s e s' _ IH _ _ S | s i w s' _ IH V _ _ S].
    - reflexivity.
    - destruct (edit_keeps _ _ S) as [_ ->]. exact IH.
    - destruct i as [| | note]; simpl in S.
      + destruct (fetch_outcome w s) as (s'' & S' & B & _).
        rewrite S in S'. injection S' as <-. exact B.
      + destruct (create_outcome (formData s) (file s) w s)
          as (s'' & S' & B & _).
        rewrite S in S'. injection S' as <-. exact (B IH).
      + destruct (delete_outcome note w s (view_renders s V))
          as (s'' & S' & _ & B & _).
        rewrite S in S'. injection S' as <-. exact (B IH). }
  split; [exact B|].
  unfold view. intros v.
  destruct (render_cards (busy s) (notes s)) as [cs|] eqn:R; [|discriminate].
  intros [= <-]. simpl. rewrite <- B at 1 2 3.
  repeat (split; [reflexivity|]).
  rewrite <- B. exact (render_cards_flags _ _ R).
Qed.

Lemma installs_preserve (log : Log) (l l' : list (option Note)) :
  (forall n, In (Some n) l' -> In (Some n) l \/ url_rule log n) ->
  Forall url_has_path l -> Forall url_has_path l'.
Proof.
  intros I Old. apply Forall_forall. intros [n|] H.
  - destruct (I n H) as [Was | New].
    + exact (proj1 (Forall_forall _ _) Old _ Was).
    + exact (url_rule_has_path New).
  - intros n Absurd. discriminate.
Qed.

(** X16.  In every state between two user actions, a note that has an
    [imageUrl] has a present [imagePath]: no sequence of fetches,
    creates, deletes and edits, with whatever answers from the platform,
    leaves a URL without the path it was resolved from. *)
Theorem reachable_urls_have_paths (s : UiState) :
  reachable P s -> Forall url_has_path (notes s).
Proof.
  induction 1 as [| s e s' _ IH _ _ S | s i w s' _ IH V _ _ S].
  - constructor.
  - destruct (edit_keeps _ _ S) as [-> _]. exact IH.
  - destruct i as [| | note]; simpl in S.
    + destruct (fetch_installs w s) as (s'' & S' & I & _).
      rewrite S in S'. injection S' as <-.
      exact (installs_preserve _ I IH).
    + destruct (create_installs (formData s) (file s) w s)
        as (s'' & S' & I & _).
      rewrite S in S'. injection S' as <-.
      exact (installs_preserve _ I IH).
    + destruct (delete_installs note w s (view_renders s V))
        as (s'' & S' & I & _).
      rewrite S in S'. injection S' as <-.
      apply Forall_forall. intros e H.
      exact (proj1 (Forall_forall _ _) IH _ (I _ H)).
Qed.

(** *** The blob path *)

Lemma append_assoc (a b c : string) :
  ((a ++ b) ++ c = a ++ (b ++ c))%string.
Proof.
  induction a as [|x a IH]; simpl; [reflexivity | rewrite IH; reflexivity].
Qed.

Lemma append_same_length (a b x y : string) :
  String.length a = String.length b ->
  (a ++ x = b ++ y)%string -> a = b /\ x = y.
Proof.
  revert b. induction a as [|c a IH]; intros [|d b]; simpl;
    try discriminate.
  - auto.
  - intros [= L] [= -> E]. destruct (IH b L E) as [-> ->]. auto.
Qed.

(** X17.  For identifiers of the same length (as the identifiers a
    store assigns are), the upload path determines both the identifier
    and the file name: two attachments get the same blob path only if
    they are for the same note id and the same file name. *)
Theorem upload_path_injective (i1 i2 n1 n2 : string) :
  String.length i1 = String.length i2 ->
  upload_path i1 n1 = upload_path i2 n2 ->
  i1 = i2 /\ n1 = n2.
Proof.
  unfold upload_path. intros L E. simpl in E.
  injection E as E.
  destruct (append_same_length _ _ _ _ L E) as [-> E'].
  split; [reflexivity|]. simpl in E'. injection E' as ->. reflexivity.
Qed.

(** X18.  Without that proviso the path is ambiguous: a hyphen in the
    identifier can be read as the separator, so an identifier [i-x] with
    file [n] and the identifier [i] with file [x-n] upload to the same
    blob path. *)
Theorem upload_path_hyphen_collision (i x n : string) :
  upload_path (i ++ "-" ++ x) n = upload_path i (x ++ "-" ++ n).
Proof.
  unfold upload_path. rewrite append_assoc. reflexivity.
Qed.

End Properties.

(** ** The theorems on the reference platform

    Each statement below instantiates one of the theorems above at a
    concrete platform state; its hypotheses hold there by evaluation. *)

(** The list call resolves and the signed-URL request rejects: the list
    on display stays. *)
Lemma fetchNotes_all_or_nothing_witness :
  failed (trace (fetchNotes Demo.platform)
                (Demo.stocked [Demo.Resolve; Demo.Reject])) = true
  /\ exists s',
       settle (trace (fetchNotes Demo.platform)
                     (Demo.stocked [Demo.Resolve; Demo.Reject]))
              Demo.shown = Some s'
       /\ busy s' = false /\ notes s' = notes Demo.shown.
Proof.
  split; [reflexivity|].
  destruct (fetchNotes_all_or_nothing Demo.platform
              (Demo.stocked [Demo.Resolve; Demo.Reject]) Demo.shown)
    as (s' & S & B & Bad & _).
  exists s'. split; [exact S|]. split; [exact B|].
  apply Bad. reflexivity.
Defined.

Lemma createNote_validation_witness :
  (form_title empty_form = EmptyString \/ form_content empty_form = EmptyString)
  /\ calls (trace (createNote Demo.platform empty_form (Some Demo.photo))
                  (Demo.fresh [])) = []
  /\ settle (trace (createNote Demo.platform empty_form (Some Demo.photo))
                   (Demo.fresh [])) Demo.shown = Some Demo.shown.
Proof.
  split; [left; reflexivity|].
  destruct (createNote_validation Demo.platform empty_form (Some Demo.photo)
              (Demo.fresh []) Demo.shown) as (_ & C & S).
  - left. reflexivity.
  - split; [exact C | exact S].
Defined.

(** The user confirms and the blob delete rejects. *)
Lemma deleteNote_blob_then_record_witness :
  confirm Demo.platform "Delete this note?" (Demo.stocked [Demo.Reject])
  = (Demo.stocked [Demo.Reject], true)
  /\ calls (trace (deleteNote Demo.platform (plain Demo.pictured))
                  (Demo.stocked [Demo.Reject]))
     = [Remove "images/1-tram.png"].
Proof.
  split; [reflexivity|].
  destruct (deleteNote_blob_then_record Demo.platform (plain Demo.pictured)
              (Demo.stocked [Demo.Reject]) (w0 := Demo.stocked [Demo.Reject]))
    as (_ & WithPath); [reflexivity|].
  destruct (WithPath "images/1-tram.png") as (_ & Rejected);
    [reflexivity | reflexivity |].
  destruct (Rejected (Demo.stocked []) "Network Error") as (C & _);
    [reflexivity | exact C].
Defined.

Lemma createNote_upload_path_witness :
  failed (trace (createNote Demo.platform Demo.draft (Some Demo.photo))
                (Demo.fresh [])) = false
  /\ exists path,
       calls (trace (createNote Demo.platform Demo.draft (Some Demo.photo))
                    (Demo.fresh []))
       = [NoteCreate [("title", "A"); ("content", "B")];
          UploadData "images/123-photo.png" Demo.photo "image/png";
          NoteUpdate [("id", "123"); ("imagePath", path)]].
Proof.
  split; [reflexivity|].
  destruct (createNote_upload_path Demo.platform Demo.draft Demo.photo
              (Demo.fresh [])
              (w1 := fst (Demo.Note_create (create_input Demo.draft)
                                           (Demo.fresh [])))
              (created := {| data := Some {| id := "123"; title := "A";
                                            content := "B";
                                            imagePath := None |} |})
              (n := {| id := "123"; title := "A"; content := "B";
                       imagePath := None |}))
    as ((path & _ & C) & _); try reflexivity.
  exists path. exact C.
Defined.

(** A delete whose record call rejects after the blob is gone. *)
Lemma busy_brackets_every_workflow_witness :
  renders Demo.shown = true /\ busy Demo.shown = false
  /\ guarded false
       (trace (handle Demo.platform Demo.shown (Delete (plain Demo.pictured)))
              (Demo.stocked [Demo.Resolve; Demo.Reject])) = true
  /\ exists s',
       settle (trace (handle Demo.platform Demo.shown
                             (Delete (plain Demo.pictured)))
                     (Demo.stocked [Demo.Resolve; Demo.Reject]))
              Demo.shown = Some s'
       /\ busy s' = false.
Proof.
  split; [reflexivity|]. split; [reflexivity|].
  destruct (busy_brackets_every_workflow Demo.platform Demo.shown
              (Delete (plain Demo.pictured))
              (Demo.stocked [Demo.Resolve; Demo.Reject])) as (G & After).
  split; [exact G|].
  destruct After as (s' & S & B & _); [reflexivity|].
  exists s'. split; [exact S|]. apply B. reflexivity.
Defined.

Lemma fetchNotes_hydrates_in_order_witness :
  failed (trace (fetchNotes Demo.platform) (Demo.stocked [])) = false
  /\ exists s' n1 n2,
       settle (trace (fetchNotes Demo.platform) (Demo.stocked []))
              Demo.shown = Some s'
       /\ notes s' = [Some n1; Some n2]
       /\ stored n1 = Demo.pictured
       /\ (exists url,
             imageUrl n1 = Some url
             /\ In (Remote (GetUrl "images/1-tram.png") (inr (Signed url)))
                   (trace (fetchNotes Demo.platform) (Demo.stocked [])))
       /\ stored n2 = Demo.bare
       /\ imageUrl n2 = None.
Proof.
  split; [reflexivity|].
  destruct (fetchNotes_hydrates_in_order Demo.platform (Demo.stocked [])
              Demo.shown)
    as (s' & w1 & resp & withUrls & L & S & N & Some_items & _);
    [reflexivity|].
  injection L as _ <-.
  destruct (Some_items [Demo.pictured; Demo.bare] eq_refl) as (M & _ & H).
  destruct withUrls as [|n1 [|n2 [|n3 rest]]]; try discriminate M.
  inversion H as [|r1 m1 l1 l1' H1 T1]; subst.
  inversion T1 as [|r2 m2 l2 l2' H2 _]; subst.
  destruct H1 as (St1 & Url1 & _). destruct H2 as (St2 & _ & No2).
  exists s', n1, n2.
  split; [exact S|]. split; [exact N|]. split; [exact St1|].
  split; [apply Url1; [reflexivity | discriminate]|].
  split; [exact St2|]. apply No2. left. reflexivity.
Defined.

Lemma createNote_appends_final_record_witness :
  nonempty (form_title Demo.draft) = true
  /\ nonempty (form_content Demo.draft) = true
  /\ failed (trace (createNote Demo.platform Demo.draft (Some Demo.photo))
                   (Demo.stocked [])) = false
  /\ exists s' final,
       settle (trace (createNote Demo.platform Demo.draft (Some Demo.photo))
                     (Demo.stocked []))
              Demo.shown = Some s'
       /\ notes s' = notes Demo.shown ++ [option_map plain final]
       /\ formData s' = empty_form /\ file s' = None.
Proof.
  split; [reflexivity|]. split; [reflexivity|]. split; [reflexivity|].
  destruct (createNote_appends_final_record Demo.platform Demo.draft
              (Some Demo.photo) (Demo.stocked []) Demo.shown)
    as ((s' & w1 & created & final & _ & S & N & F & Fi & _) & _);
    try reflexivity.
  exists s', final. repeat split; assumption.
Defined.

Lemma imageUrl_follows_resolution_witness :
  renders Demo.shown = true
  /\ exists s',
       settle (trace (handle Demo.platform Demo.shown Save) (Demo.stocked []))
              Demo.shown = Some s'
       /\ forall c,
            In c (calls (trace (handle Demo.platform Demo.shown Save)
                               (Demo.stocked []))) ->
            ~ In "imageUrl" (sent_keys c).
Proof.
  split; [reflexivity|].
  destruct (imageUrl_follows_resolution Demo.platform Demo.shown Save
              (Demo.stocked [])) as (s' & S & _ & _ & K); [reflexivity|].
  exists s'. split; [exact S|]. intros c I. exact (proj1 (K c I)).
Defined.

(** The create resolves with [data] null while a file is selected. *)
Lemma createNote_null_record_witness :
  nonempty (form_title Demo.draft) = true
  /\ nonempty (form_content Demo.draft) = true
  /\ Demo.Note_create (create_input Demo.draft) (Demo.fresh [Demo.Empty])
     = (Demo.fresh [], inr {| data := None |})
  /\ calls (trace (createNote Demo.platform Demo.draft (Some Demo.photo))
                  (Demo.fresh [Demo.Empty]))
     = [NoteCreate [("title", "A"); ("content", "B")]]
  /\ exists s',
       settle (trace (createNote Demo.platform Demo.draft (Some Demo.photo))
                     (Demo.fresh [Demo.Empty])) initial = Some s'
       /\ notes s' = [None].
Proof.
  split; [reflexivity|]. split; [reflexivity|]. split; [reflexivity|].
  destruct (createNote_null_record Demo.platform Demo.draft (Some Demo.photo)
              (Demo.fresh [Demo.Empty]) (w1 := Demo.fresh [])
              (created := {| data := None |})) as (E & After);
    try reflexivity.
  split.
  - unfold trace. rewrite E. reflexivity.
  - destruct (After initial) as (s' & S & N & _).
    exists s'. split; [exact S | exact N].
Defined.


(** The create resolves and the upload rejects. *)
Lemma createNote_failure_keeps_state_witness :
  failed (trace (createNote Demo.platform Demo.draft (Some Demo.photo))
                (Demo.stocked [Demo.Resolve; Demo.Reject])) = true
  /\ exists s',
       settle (trace (createNote Demo.platform Demo.draft (Some Demo.photo))
                     (Demo.stocked [Demo.Resolve; Demo.Reject]))
              Demo.shown = Some s'
       /\ notes s' = notes Demo.shown /\ formData s' = formData Demo.shown
       /\ file s' = file Demo.shown.
Proof.
  split; [reflexivity|].
  destruct (createNote_failure_keeps_state Demo.platform Demo.draft
              (Some Demo.photo) (Demo.stocked [Demo.Resolve; Demo.Reject])
              Demo.shown) as (s' & S & N & F & Fi & _); [reflexivity|].
  exists s'. repeat split; assumption.
Defined.

(** The blob delete resolves and the record delete rejects. *)
Lemma deleteNote_failure_keeps_list_witness :
  failed (trace (deleteNote Demo.platform (plain Demo.pictured))
                (Demo.stocked [Demo.Resolve; Demo.Reject])) = true
  /\ exists s',
       settle (trace (deleteNote Demo.platform (plain Demo.pictured))
                     (Demo.stocked [Demo.Resolve; Demo.Reject]))
              Demo.shown = Some s'
       /\ notes s' = notes Demo.shown /\ busy s' = false.
Proof.
  split; [reflexivity|].
  destruct (deleteNote_failure_keeps_list Demo.platform (plain Demo.pictured)
              (Demo.stocked [Demo.Resolve; Demo.Reject]) Demo.shown)
    as (s' & S & N & _ & _ & B & _); [reflexivity|].
  exists s'. repeat split; assumption.
Defined.

Lemma sequential_workflows_stop_at_rejection_witness :
  Save <> Refresh
  /\ exists l1 e l2,
       trace (handle Demo.platform Demo.shown Save)
             (Demo.stocked [Demo.Resolve; Demo.Reject])
       = l1 ++ e :: l2
       /\ threw e = true /\ calls l2 = [].
Proof.
  split; [discriminate|].
  pose (l1 := [SetBusy true;
               Remote (NoteCreate [("title", "A"); ("content", "B")])
                 (inr (Data {| data := Some {| id := "3"; title := "A";
                                               content := "B";
                                               imagePath := None |} |}))]
              : list (Effect Demo.Err)).
  pose (e := Remote (UploadData "images/3-photo.png" Demo.photo "image/png")
                    (inl "Network Error") : Effect Demo.Err).
  pose (l2 := [ConsoleError "Error creating note:" "Network Error";
               Alert "Error creating note. Check console for details.";
               SetBusy false] : list (Effect Demo.Err)).
  exists l1, e, l2.
  split; [reflexivity|]. split; [reflexivity|].
  apply (@sequential_workflows_stop_at_rejection _ _ Demo.platform Demo.shown
           Save (Demo.stocked [Demo.Resolve; Demo.Reject]) l1 l2 e);
    [discriminate | reflexivity | reflexivity].
Defined.

Lemma deleteNote_declined_is_inert_witness :
  confirm Demo.platform "Delete this note?" Demo.hesitant
  = (Demo.hesitant, false)
  /\ calls (trace (deleteNote Demo.platform (plain Demo.pictured))
                  Demo.hesitant) = []
  /\ settle (trace (deleteNote Demo.platform (plain Demo.pictured))
                   Demo.hesitant) Demo.shown = Some Demo.shown.
Proof.
  split; [reflexivity|].
  destruct (deleteNote_declined_is_inert Demo.platform (plain Demo.pictured)
              Demo.hesitant (w0 := Demo.hesitant) Demo.shown)
    as (_ & C & S); [reflexivity|].
  split; [exact C | exact S].
Defined.

Lemma deleteNote_removes_by_id_witness :
  confirm Demo.platform "Delete this note?" (Demo.stocked [])
  = (Demo.stocked [], true)
  /\ failed (trace (deleteNote Demo.platform (plain Demo.pictured))
                   (Demo.stocked [])) = false
  /\ renders Demo.shown = true
  /\ exists s',
       settle (trace (deleteNote Demo.platform (plain Demo.pictured))
                     (Demo.stocked [])) Demo.shown = Some s'
       /\ notes s' = [Some (plain Demo.bare)].
Proof.
  split; [reflexivity|]. split; [reflexivity|]. split; [reflexivity|].
  destruct (deleteNote_removes_by_id Demo.platform (plain Demo.pictured)
              (Demo.stocked []) (w0 := Demo.stocked []) Demo.shown)
    as (s' & S & N & _); try reflexivity.
  exists s'. split; [exact S|]. rewrite N. reflexivity.
Defined.

(** The list resolves, the only signed-URL request rejects. *)
Lemma fetchNotes_requests_every_url_witness :
  calls (trace (fetchNotes Demo.platform)
               (Demo.stocked [Demo.Resolve; Demo.Reject]))
  = [NoteList; GetUrl "images/1-tram.png"].
Proof.
  destruct (fetchNotes_requests_every_url Demo.platform
              (Demo.stocked [Demo.Resolve; Demo.Reject])) as (Listed' & _).
  exact (Listed' (Demo.stocked [Demo.Reject])
                 (Some {| list_data := Some [Demo.pictured; Demo.bare] |})
                 eq_refl).
Defined.

(** A fetch over a list that holds a null entry. *)
Lemma fetchNotes_replaces_whole_list_witness :
  failed (trace (fetchNotes Demo.platform) (Demo.stocked [])) = false
  /\ exists withUrls s',
       map stored withUrls = [Demo.pictured; Demo.bare]
       /\ settle (trace (fetchNotes Demo.platform) (Demo.stocked []))
                 {| notes := [None]; formData := empty_form; file := None;
                    busy := false |} = Some s'
       /\ notes s' = map Some withUrls /\ renders s' = true.
Proof.
  split; [reflexivity|].
  destruct (fetchNotes_replaces_whole_list Demo.platform (Demo.stocked []))
    as (w1 & resp & withUrls & L & Some_items & _ & All); [reflexivity|].
  injection L as _ <-.
  destruct (All {| notes := [None]; formData := empty_form; file := None;
                   busy := false |}) as (s' & S & N & R).
  exists withUrls, s'.
  split; [exact (Some_items [Demo.pictured; Demo.bare] eq_refl)|].
  repeat split; assumption.
Defined.

Lemma typed_draft_is_sent_witness :
  nonempty "A" = true /\ nonempty "B" = true
  /\ exists s1 s2 outcome rest,
       settle (edit (Err := Demo.Err) initial (TypeTitle "A")) initial
       = Some s1
       /\ settle (edit (Err := Demo.Err) s1 (TypeContent "B")) s1 = Some s2
       /\ trace (handle Demo.platform s2 Save) (Demo.fresh [])
          = SetBusy true
            :: Remote (NoteCreate [("title", "A"); ("content", "B")]) outcome
            :: rest.
Proof.
  split; [reflexivity|]. split; [reflexivity|].
  destruct (typed_draft_is_sent Demo.platform initial "A" "B" (Demo.fresh []))
    as (s1 & s2 & S1 & S2 & _ & _ & outcome & rest & T); try reflexivity.
  exists s1, s2, outcome, rest. repeat split; assumption.
Defined.

Lemma save_after_create_only_alerts_witness :
  nonempty (form_title (formData Demo.shown)) = true
  /\ nonempty (form_content (formData Demo.shown)) = true
  /\ failed (trace (handle Demo.platform Demo.shown Save) (Demo.stocked []))
     = false
  /\ exists s',
       settle (trace (handle Demo.platform Demo.shown Save) (Demo.stocked []))
              Demo.shown = Some s'
       /\ calls (trace (handle Demo.platform s' Save) (Demo.stocked [])) = [].
Proof.
  split; [reflexivity|]. split; [reflexivity|]. split; [reflexivity|].
  destruct (save_after_create_only_alerts Demo.platform Demo.shown
              (Demo.stocked [])) as (s' & S & Again); try reflexivity.
  exists s'. split; [exact S|].
  unfold trace. rewrite Again. reflexivity.
Defined.

Lemma save_after_failure_retries_witness :
  failed (trace (handle Demo.platform Demo.shown Save)
                (Demo.stocked [Demo.Resolve; Demo.Reject])) = true
  /\ exists s',
       settle (trace (handle Demo.platform Demo.shown Save)
                     (Demo.stocked [Demo.Resolve; Demo.Reject]))
              Demo.shown = Some s'
       /\ handle Demo.platform s' Save (Demo.stocked [])
          = handle Demo.platform Demo.shown Save (Demo.stocked []).
Proof.
  split; [reflexivity|].
  destruct (save_after_failure_retries Demo.platform Demo.shown
              (Demo.stocked [Demo.Resolve; Demo.Reject]))
    as (s' & S & Same & _); [reflexivity|].
  exists s'. split; [exact S | apply Same].
Defined.

Lemma null_record_breaks_view_witness :
  nonempty (form_title Demo.draft) = true
  /\ nonempty (form_content Demo.draft) = true
  /\ Demo.Note_create (create_input Demo.draft) (Demo.fresh [Demo.Empty])
     = (Demo.fresh [], inr {| data := None |})
  /\ exists s',
       settle (trace (createNote Demo.platform Demo.draft None)
                     (Demo.fresh [Demo.Empty])) initial = Some s'
       /\ view s' = None.
Proof.
  split; [reflexivity|]. split; [reflexivity|]. split; [reflexivity|].
  apply (null_record_breaks_view Demo.platform Demo.draft None
           (Demo.fresh [Demo.Empty]) (w1 := Demo.fresh [])
           (created := {| data := None |}) initial); reflexivity.
Defined.

(** The state after the fetch that follows sign-in. *)
Lemma reachable_fetched : reachable Demo.platform Demo.fetched.
Proof.
  apply (@reach_workflow _ _ Demo.platform initial Refresh (Demo.stocked [])
           Demo.fetched).
  - apply reach_initial.
  - discriminate.
  - reflexivity.
  - intros n Absurd. discriminate.
  - reflexivity.
Defined.

Lemma reachable_is_idle_witness :
  reachable Demo.platform Demo.fetched /\ busy Demo.fetched = false.
Proof.
  split; [exact reachable_fetched|].
  exact (proj1 (reachable_is_idle reachable_fetched)).
Defined.

Lemma reachable_urls_have_paths_witness :
  reachable Demo.platform Demo.fetched
  /\ Forall url_has_path (notes Demo.fetched).
Proof.
  split; [exact reachable_fetched|].
  exact (reachable_urls_have_paths reachable_fetched).
Defined.

Lemma upload_path_injective_witness :
  String.length "123" = String.length "123"
  /\ upload_path "123" "photo.png" = upload_path "123" "photo.png"
  /\ "123" = "123" /\ "photo.png" = "photo.png".
Proof.
  split; [reflexivity|]. split; [reflexivity|].
  apply (@upload_path_injective "123" "123" "photo.png" "photo.png");
    reflexivity.
Defined.

(** ** Where the list departs from the stated rules *)

(** The state after typing a draft, picking the photo and saving it to a
    fresh store. *)
Lemma reachable_created : reachable Demo.platform Demo.created.
Proof.
  apply (@reach_workflow _ _ Demo.platform
           {| notes := []; formData := Demo.draft; file := Some Demo.photo;
              busy := false |}
           Save (Demo.fresh []) Demo.created).
  - apply (@reach_edit _ _ Demo.platform
             {| notes := []; formData := Demo.draft; file := None;
                busy := false |}
             (PickFile (Some [Demo.photo]))).
    + apply (@reach_edit _ _ Demo.platform
               {| notes := [];
                  formData := {| form_title := "A";
                                 form_content := EmptyString |};
                  file := None; busy := false |}
               (TypeContent "B")).
      * apply (@reach_edit _ _ Demo.platform initial (TypeTitle "A"));
          [apply reach_initial | discriminate | discriminate | reflexivity].
      * discriminate.
      * discriminate.
      * reflexivity.
    + discriminate.
    + discriminate.
    + reflexivity.
  - discriminate.
  - reflexivity.
  - intros n Absurd. discriminate.
  - reflexivity.
Qed.

(** After a create with a file the list holds the note with its image
    path and without URL.  A refresh in which the signed URL of that
    very path resolves while the one of another record rejects leaves
    the list as it was: the note has a present [imagePath], the request
    for it succeeded in the run just finished, and it has no
    [imageUrl]. *)
Lemma imageUrl_iff_fails_for_kept_note :
  ~ (forall (s : UiState) (i : Intent) (w : Demo.World) (s' : UiState)
            (n : Note),
       reachable Demo.platform s ->
       settle (trace (handle Demo.platform s i) w) s = Some s' ->
       In (Some n) (notes s') ->
       (imageUrl n <> None
        <-> present (imagePath (stored n)) = true
            /\ exists p url,
                 imagePath (stored n) = Some p
                 /\ In (Remote (GetUrl p) (inr (Signed url)))
                       (trace (handle Demo.platform s i) w))).
Proof.
  intros Rule.
  destruct (Rule Demo.created Refresh
                 (Demo.crowded [Demo.Resolve; Demo.Resolve; Demo.Reject])
                 Demo.created
                 {| stored := Demo.attached; imageUrl := None |}
                 reachable_created eq_refl (or_introl eq_refl))
    as [_ Attach].
  apply Attach; [|reflexivity].
  split; [reflexivity|].
  exists "images/123-photo.png", "https://blobs.example/images/123-photo.png".
  split; [reflexivity|]. simpl. auto.
Qed.

